(** * rbac-api-utils: the access-review helpers of [pkg/rbac/rbac.go]

    A shallow embedding of the Go package [rbac] and the properties of its
    rule matching, verb merging and metrics decoding.

    Modelling conventions:
    - a Go [string] is a [string] (a sequence of bytes), a [[]string] a
      [list string]; the nil slice and the empty slice are both [[]], the
      code only ever takes [len] of them, ranges over them or appends; the
      slice of a map entry grows from the nil slice and is stored back after
      every merge, so no two entries share a backing array and [append] is
      modelled on values;
    - a Go [map[string]V] is a [gmap string V]; reading a missing key gives
      the zero value of [V];
    - a Go [error] is the message it carries; a call on a nil interface
      value is a run-time panic;
    - [klog.V(n)] diagnostics depend on the verbosity flag of the process and
      never reach a returned value: they are left out.  The one unconditional
      [klog.Infof] of the package is kept, as a line of the log a call
      writes.  So the log of a call is what it writes at a verbosity below 2;
      at a higher verbosity the [klog.V] lines come on top of it. *)

From stdpp Require Import base option list strings gmap fin_maps.

#[local] Set Warnings "-clear-no-such-hyp".

Open Scope string_scope.
Open Scope list_scope.

(** ** Go library functions used by the package *)

Module strings.

(** [strings.HasPrefix(s, prefix)]:
    [len(s) >= len(prefix) && s[:len(prefix)] == prefix]. *)
Fixpoint HasPrefix (s prefix : string) {struct prefix} : bool :=
  match prefix with
  | EmptyString => true
  | String c prefix' =>
      match s with
      | EmptyString => false
      | String d s' => if Ascii.eqb d c then HasPrefix s' prefix' else false
      end
  end.

(** [s[n:]] for [n <= len(s)]. *)
Fixpoint drop_bytes (n : nat) (s : string) : string :=
  match n with
  | O => s
  | S n' => match s with EmptyString => EmptyString | String _ s' => drop_bytes n' s' end
  end.

(** [strings.TrimPrefix(s, prefix)]: [s[len(prefix):]] when [s] has the
    prefix, [s] otherwise. *)
Definition TrimPrefix (s prefix : string) : string :=
  if HasPrefix s prefix then drop_bytes (String.length prefix) s else s.

End strings.

Module slices.

(** [slices.Contains(s, v)]: a linear search with [==]. *)
Fixpoint Contains (s : list string) (v : string) : bool :=
  match s with
  | [] => false
  | x :: s' => if String.eqb v x then true else Contains s' v
  end.

End slices.

(** ** [addUniqueItems] *)

(** The loop body of [addUniqueItems]: append [item] unless the list built
    so far holds it. *)
Definition addUniqueItem (resultList : list string) (item : string) : list string :=
  if negb (slices.Contains resultList item) then resultList ++ [item] else resultList.

Definition addUniqueItems (itemlist : list string) (itemsToAdd : list string) : list string :=
  foldl addUniqueItem itemlist itemsToAdd.

(** ** The Kubernetes types the package touches *)

(** A Go [error], by its message. *)
Record error := errors_New { Error : string }.

(** What a Go call does: it returns a value, returns an error, or panics. *)
Inductive outcome (A : Type) : Type :=
  | Ok (a : A)
  | Err (e : error)
  | Panic.
Arguments Ok {A} a.
Arguments Err {A} e.
Arguments Panic {A}.

(** A call together with the lines it writes through [klog.Infof], the
    lines of [klog.V(n).Infof] apart. *)
Definition logged (A : Type) : Type := (list string * outcome A)%type.

Definition ret {A} (a : A) : logged A := ([], Ok a).
Definition fail {A} (e : error) : logged A := ([], Err e).
Definition klog_Infof (line : string) : logged unit := ([line], Ok tt).
Definition bind {A B} (m : logged A) (k : A → logged B) : logged B :=
  match m with
  | (l, Ok a) => let '(l', r) := k a in (l ++ l', r)
  | (l, Err e) => (l, Err e)
  | (l, Panic) => (l, Panic)
  end.

Notation "'let*' x := m 'in' k" := (bind m (λ x, k))
  (at level 10, x name, m at level 100, k at level 200, only parsing).

Module schema.
Record GroupResource := { Group : string; Resource : string }.
End schema.

Module authorizationv1.
(** [ResourceRule] of k8s.io/api/authorization/v1. *)
Record ResourceRule := {
  Verbs : list string;
  APIGroups : list string;
  Resources : list string;
  ResourceNames : list string;
}.

Record SelfSubjectRulesReviewSpec := { Namespace : string }.

(** [SubjectRulesReviewStatus]; its [NonResourceRules] are never read by
    the package. *)
Record SubjectRulesReviewStatus := {
  ResourceRules : list ResourceRule;
  Incomplete : bool;
  EvaluationError : string;
}.

Record SelfSubjectRulesReview := {
  Spec : SelfSubjectRulesReviewSpec;
  Status : SubjectRulesReviewStatus;
}.
End authorizationv1.

Module rest.
Record TLSClientConfig := {
  Insecure : bool;
  ServerName : string;
  CAFile : string;
  CAData : string;
}.

(** The fields of [rest.Config] the package reads or writes. *)
Record Config := {
  Host : string;
  APIPath : string;
  BearerToken : string;
  BearerTokenFile : string;
  TLS : TLSClientConfig;
}.
End rest.

Module kubernetes.
(** [kubernetes.Interface], by the one call the package makes on it:
    [AuthorizationV1().SelfSubjectRulesReviews().Create(ctx, sarr, opts)]. *)
Record Interface := {
  SelfSubjectRulesReviews_Create :
    authorizationv1.SelfSubjectRulesReview → outcome authorizationv1.SelfSubjectRulesReview;
}.

(** [kubernetes.NewForConfig], of client-go. *)
Class ClientSet := { NewForConfig : rest.Config → outcome Interface }.
End kubernetes.

Import authorizationv1.

(** ** [ACLConfig] and [AccessReviewer] *)

Record ACLConfig := {
  groupRes : schema.GroupResource;
  verb : string;
}.

Definition MetricsACLConfig : ACLConfig := {|
  groupRes := {| schema.Group := "cluster.open-cluster-management.io";
                 schema.Resource := "managedclusters" |};
  verb := "metrics/";
|}.

(** A nil pointer or nil interface value is [None]. *)
Record AccessReviewer := {
  kubeConfig : option rest.Config;
  kubeClient : option kubernetes.Interface;
}.

Definition NewAccessReviewer
    (kConfig : option rest.Config) (kClient : option kubernetes.Interface)
    : outcome AccessReviewer :=
  match kClient, kConfig with
  | None, None =>
      Err (errors_New "one of either kubeConfig or kubeClient must be a non-nil value")
  | Some _, Some _ =>
      Err (errors_New "only one of either kubeConfig or kubeClient must be a non-nil value")
  | _, _ =>
      match kConfig with
      | Some configCopy => Ok {| kubeConfig := Some configCopy; kubeClient := None |}
      | None => Ok {| kubeConfig := None; kubeClient := kClient |}
      end
  end.

Definition getKubeClientForUser `{kubernetes.ClientSet}
    (r : AccessReviewer) (userToken : string) : outcome (option kubernetes.Interface) :=
  match kubeConfig r with
  | Some cfg =>
      if negb (String.eqb userToken "") then
        let userKubeConfig := {|
          rest.Host := rest.Host cfg;
          rest.APIPath := rest.APIPath cfg;
          rest.TLS := {| rest.CAFile := rest.CAFile (rest.TLS cfg);
                         rest.CAData := rest.CAData (rest.TLS cfg);
                         rest.ServerName := rest.ServerName (rest.TLS cfg);
                         rest.Insecure := rest.Insecure (rest.TLS cfg) |};
          rest.BearerTokenFile := "";
          rest.BearerToken := userToken |} in
        match kubernetes.NewForConfig userKubeConfig with
        | Ok kclient => Ok (Some kclient)
        | Err err => Err err
        | Panic => Panic
        end
      else
        Err (errors_New
          ("failed to get a client to connect to the kubernetes cluster:" +:+
           "When KubeConfig is provided, a valid userToken must be set on all access review calls"))
  | None => Ok (kubeClient r)
  end.

(** ** [makeSubjectRulesReviewForUser] *)

(** The request the function sends: an empty namespace is replaced by one
    no namespace can have, so that only cluster-scoped bindings count. *)
Definition rulesReviewRequest (namespace : string) : SelfSubjectRulesReview :=
  let namespace := if String.eqb namespace "" then "$ Invalid $" else namespace in
  {| Spec := {| Namespace := namespace |};
     Status := {| ResourceRules := []; Incomplete := false; EvaluationError := "" |} |}.

(** The line logged for a non-empty [EvaluationError]. *)
Definition evaluationErrorLine (sarr response : SelfSubjectRulesReview) : string :=
  "Encountered a SelfSubjectRulesReviews error in namespace "
  +:+ Namespace (Spec sarr) +:+ ": " +:+ EvaluationError (Status response).

Definition makeSubjectRulesReviewForUser
    (kclient : option kubernetes.Interface) (namespace : string)
    : logged (list ResourceRule) :=
  let sarr := rulesReviewRequest namespace in
  match kclient with
  | None => ([], Panic)
  | Some c =>
      match kubernetes.SelfSubjectRulesReviews_Create c sarr with
      | Panic => ([], Panic)
      | Err err => fail err
      | Ok response =>
          let sarrStatus := Status response in
          let* _ :=
            (if negb (String.eqb (EvaluationError sarrStatus) "") then
               klog_Infof (evaluationErrorLine sarr response)
             else ret tt) in
          ret (ResourceRules sarrStatus)
      end
  end.

(** ** [GetResourceAccess] *)

Definition ruleMatchesAPIGroup (gr : schema.GroupResource) (rule : ResourceRule) : bool :=
  slices.Contains (APIGroups rule) (schema.Group gr) || slices.Contains (APIGroups rule) "*".

Definition ruleMatchesResource (gr : schema.GroupResource) (rule : ResourceRule) : bool :=
  slices.Contains (Resources rule) (schema.Resource gr) || slices.Contains (Resources rule) "*".

(** [results[name] = addUniqueItems(results[name], verbs...)]; a missing
    key reads as the nil slice. *)
Definition mergeVerbs (name : string) (verbs : list string)
    (results : gmap string (list string)) : gmap string (list string) :=
  <[name := addUniqueItems (default [] (results !! name)) verbs]> results.

(** The body of the loop over the rules. *)
Definition applyRule (gr : schema.GroupResource) (resourcenames : list string)
    (resourceAccessResults : gmap string (list string)) (rule : ResourceRule)
    : gmap string (list string) :=
  if negb (ruleMatchesAPIGroup gr rule && ruleMatchesResource gr rule) then
    resourceAccessResults
  else if negb (length (ResourceNames rule) =? 0)%nat then
    foldl (λ results ruleResourceName,
             if (length resourcenames =? 0)%nat
                || slices.Contains resourcenames ruleResourceName
             then mergeVerbs ruleResourceName (Verbs rule) results
             else results)
          resourceAccessResults (ResourceNames rule)
  else if negb (length resourcenames =? 0)%nat then
    foldl (λ results rname, mergeVerbs rname (Verbs rule) results)
          resourceAccessResults resourcenames
  else
    mergeVerbs "*" (Verbs rule) resourceAccessResults.

(** The closing loop: an empty entry for every requested name still missing. *)
Definition addMissingEntries (resourcenames : list string)
    (resourceAccessResults : gmap string (list string)) : gmap string (list string) :=
  if negb (length resourcenames =? 0)%nat then
    foldl (λ results rname,
             match results !! rname with
             | Some _ => results
             | None => <[rname := []]> results
             end)
          resourceAccessResults resourcenames
  else resourceAccessResults.

(** Everything [GetResourceAccess] does once it holds the rules. *)
Definition resourceAccessOfRules (gr : schema.GroupResource) (resourcenames : list string)
    (resourceRules : list ResourceRule) : gmap string (list string) :=
  addMissingEntries resourcenames (foldl (applyRule gr resourcenames) ∅ resourceRules).

Definition GetResourceAccess (kclient : option kubernetes.Interface)
    (gr : schema.GroupResource) (resourcenames : list string) (namespace : string)
    : logged (gmap string (list string)) :=
  let* resourceRules := makeSubjectRulesReviewForUser kclient namespace in
  ret (resourceAccessOfRules gr resourcenames resourceRules).

(** ** [GetMetricsAccess] *)

(** The body of the loop over one cluster's verbs. *)
Definition decodeVerb (metricsAccessMap : gmap string bool) (acl : string) : gmap string bool :=
  if strings.HasPrefix acl (verb MetricsACLConfig) then
    <[strings.TrimPrefix acl (verb MetricsACLConfig) := true]> metricsAccessMap
  else if String.eqb acl "*" then
    <["*" := true]> metricsAccessMap
  else metricsAccessMap.

Definition metricsAccessMapOf (clusteracls : list string) : gmap string bool :=
  foldl decodeVerb ∅ clusteracls.

(** A Go [range] over a map visits every entry once, in an order the
    language leaves unspecified and that may change from one loop to the
    next: any arrangement of the entries is a run of the loop. *)
Definition rangeOver {V} (m : gmap string V) (visited : list (string * V)) : Prop :=
  visited ≡ₚ map_to_list m.

(** [nsWithMetricsAccess]: the keys of [metricsAccessMap], appended in the
    order the range visits them. *)
Definition nsWithMetricsAccessOf (clusteracls : list string) (ns : list string) : Prop :=
  ∃ visited, rangeOver (metricsAccessMapOf clusteracls) visited ∧ ns = visited.*1.

(** The end of the loop body for one cluster. *)
Definition addCluster (clusters : list string)
    (metricsAccessResults : gmap string (list string))
    (clustername : string) (nsWithMetricsAccess : list string) : gmap string (list string) :=
  if (0 <? length nsWithMetricsAccess)%nat || slices.Contains clusters clustername then
    <[clustername := nsWithMetricsAccess]> metricsAccessResults
  else metricsAccessResults.

(** The loop over the entries of [resourceACLs], in the order they are
    visited. *)
Inductive metricsLoop (clusters : list string) :
    gmap string (list string) → list (string * list string) →
    gmap string (list string) → Prop :=
  | metricsLoop_done results :
      metricsLoop clusters results [] results
  | metricsLoop_step results clustername clusteracls rest ns results' :
      nsWithMetricsAccessOf clusteracls ns →
      metricsLoop clusters (addCluster clusters results clustername ns) rest results' →
      metricsLoop clusters results ((clustername, clusteracls) :: rest) results'.

(** [GetMetricsAccess r userToken clusters out]: [out] is a possible result
    of the call. *)
Definition GetMetricsAccess `{kubernetes.ClientSet}
    (r : AccessReviewer) (userToken : string) (clusters : list string)
    (out : logged (gmap string (list string))) : Prop :=
  match getKubeClientForUser r userToken with
  | Panic => out = ([], Panic)
  | Err err => out = ([], Err err)
  | Ok userKClient =>
      match GetResourceAccess userKClient (groupRes MetricsACLConfig) clusters "" with
      | (l, Panic) => out = (l, Panic)
      | (l, Err err) => out = (l, Err err)
      | (l, Ok resourceACLs) =>
          ∃ visited metricsAccessResults,
            rangeOver resourceACLs visited ∧
            metricsLoop clusters ∅ visited metricsAccessResults ∧
            out = (l, Ok metricsAccessResults)
      end
  end.

(** One run of [GetMetricsAccess], computed: [order] is the arrangement the
    run-time picks for the keys of each [metricsAccessMap]. *)
Definition decodeInOrder (order : list string → list string) (clusters : list string)
    (visited : list (string * list string)) : gmap string (list string) :=
  foldl (λ results '(clustername, clusteracls),
           addCluster clusters results clustername
             (order (map_to_list (metricsAccessMapOf clusteracls)).*1))
        ∅ visited.

Definition GetMetricsAccessInOrder `{kubernetes.ClientSet}
    (order : list string → list string)
    (r : AccessReviewer) (userToken : string) (clusters : list string)
    : logged (gmap string (list string)) :=
  match getKubeClientForUser r userToken with
  | Panic => ([], Panic)
  | Err err => ([], Err err)
  | Ok userKClient =>
      let* resourceACLs :=
        GetResourceAccess userKClient (groupRes MetricsACLConfig) clusters "" in
      ret (decodeInOrder order clusters (map_to_list resourceACLs))
  end.

(** ** The matching rules of the specification, in its own words *)

(** "A rule matches target iff (target.apiGroup ∈ rule.apiGroups OR "*" ∈
    rule.apiGroups) AND (target.resourceType ∈ rule.resourceTypes OR "*" ∈
    rule.resourceTypes)". *)
Definition ruleMatches (gr : schema.GroupResource) (rule : ResourceRule) : Prop :=
  (schema.Group gr ∈ APIGroups rule ∨ "*" ∈ APIGroups rule) ∧
  (schema.Resource gr ∈ Resources rule ∨ "*" ∈ Resources rule).

(** The names a matching rule contributes its verbs to: those of its own
    names that are requested (all of them when nothing is requested); for a
    rule without names, every requested name, or the sentinel ["*"] when
    nothing is requested. *)
Definition ruleCovers (resourcenames : list string) (rule : ResourceRule)
    (name : string) : Prop :=
  match ResourceNames rule, resourcenames with
  | _ :: _, [] => name ∈ ResourceNames rule
  | _ :: _, _ :: _ => name ∈ ResourceNames rule ∧ name ∈ resourcenames
  | [], _ :: _ => name ∈ resourcenames
  | [], [] => name = "*"
  end.

#[global] Instance ruleMatches_dec gr rule : Decision (ruleMatches gr rule).
Proof. unfold ruleMatches. apply _. Defined.

#[global] Instance ruleCovers_dec resourcenames rule name :
  Decision (ruleCovers resourcenames rule name).
Proof. unfold ruleCovers. destruct (ResourceNames rule), resourcenames; apply _. Defined.

(** The namespace a verb grants, in the words of the specification: the
    suffix after the prefix for a verb that starts with it, the sentinel
    ["*"] for the verb ["*"], nothing for any other verb. *)
Definition verbGrants (acl ns : string) : Prop :=
  acl = verb MetricsACLConfig +:+ ns ∨ (acl = "*" ∧ ns = "*").

(** A cluster is kept when "the resulting namespace set is non-empty, OR
    clusterName is a member of requestedClusters". *)
Definition clusterIncluded (clusters : list string) (clustername : string)
    (clusteracls : list string) : Prop :=
  metricsAccessMapOf clusteracls ≠ ∅ ∨ clustername ∈ clusters.

(** What the decoding makes of a result of [GetResourceAccess], whatever the
    order of the visits. *)
Definition decodesTo (clusters : list string)
    (resourceACLs metricsAccessResults : gmap string (list string)) : Prop :=
  ∀ clustername,
    match resourceACLs !! clustername with
    | Some clusteracls =>
        if decide (clusterIncluded clusters clustername clusteracls)
        then ∃ ns, nsWithMetricsAccessOf clusteracls ns ∧
                   metricsAccessResults !! clustername = Some ns
        else metricsAccessResults !! clustername = None
    | None => metricsAccessResults !! clustername = None
    end.

(** Some rule of the list matches the target and covers the name. *)
Definition someRuleCovers (gr : schema.GroupResource) (resourcenames : list string)
    (rules : list ResourceRule) (name : string) : Prop :=
  ∃ rule, rule ∈ rules ∧ ruleMatches gr rule ∧ ruleCovers resourcenames rule name.

(** Every entry of a result is free of duplicates. *)
Definition uniqueEntries (results : gmap string (list string)) : Prop :=
  ∀ k l, results !! k = Some l → NoDup l.

(** A value list built from the empty accumulator by merging one collection
    of verbs after the other. *)
Definition mergeAll (collections : list (list string)) : list string :=
  foldl addUniqueItems [] collections.

(** Two results that differ at most in the order of the verbs of an entry. *)
Definition sameAccess (m1 m2 : gmap string (list string)) : Prop :=
  ∀ name, match m1 !! name, m2 !! name with
          | Some l1, Some l2 => l1 ≡ₚ l2
          | None, None => True
          | _, _ => False
          end.

(** ** The rest of the package, named for the properties below *)

(** The configuration [getKubeClientForUser] hands to [kubernetes.NewForConfig]
    for a reviewer that holds [cfg]. *)
Definition userKubeConfigFor (cfg : rest.Config) (userToken : string) : rest.Config :=
  {| rest.Host := rest.Host cfg;
     rest.APIPath := rest.APIPath cfg;
     rest.TLS := {| rest.CAFile := rest.CAFile (rest.TLS cfg);
                    rest.CAData := rest.CAData (rest.TLS cfg);
                    rest.ServerName := rest.ServerName (rest.TLS cfg);
                    rest.Insecure := rest.Insecure (rest.TLS cfg) |};
     rest.BearerTokenFile := "";
     rest.BearerToken := userToken |}.

(** The error of a reviewer that holds a configuration and gets no token. *)
Definition missingTokenError : error :=
  errors_New
    ("failed to get a client to connect to the kubernetes cluster:" +:+
     "When KubeConfig is provided, a valid userToken must be set on all access review calls").

(** The rules of a list that match the target and cover a name, in the
    order of the list. *)
Definition rulesFor (gr : schema.GroupResource) (resourcenames : list string)
    (name : string) (rules : list ResourceRule) : list ResourceRule :=
  filter (λ rule, ruleMatches gr rule ∧ ruleCovers resourcenames rule name) rules.

(** ** [compareMetricsAccessResults], the comparison of the tests *)

(** The body of the loop over the expected clusters: the cluster is in the
    results received, with every expected namespace. *)
Definition clusterAsExpected (gotResults : gmap string (list string))
    (expected : string * list string) : bool :=
  match gotResults !! expected.1 with
  | Some gotNamespaces =>
      forallb (λ expNS, slices.Contains gotNamespaces expNS) expected.2
  | None => false
  end.

(** The loop, which returns at the first cluster that fails, over the
    entries in the order the range visits them. *)
Fixpoint compareVisited (visited : list (string * list string))
    (gotResults : gmap string (list string)) : bool :=
  match visited with
  | [] => true
  | expected :: rest =>
      if clusterAsExpected gotResults expected then compareVisited rest gotResults
      else false
  end.

Definition compareMetricsAccessResultsIn (visited : list (string * list string))
    (expectedResults gotResults : gmap string (list string)) : bool :=
  if negb (size expectedResults =? size gotResults)%nat then false
  else compareVisited visited gotResults.

(** The comparison on the run that ranges in key order; the verdict is the
    same on every run ([compareMetricsAccessResultsIn_rangeOver]). *)
Definition compareMetricsAccessResults
    (expectedResults gotResults : gmap string (list string)) : bool :=
  compareMetricsAccessResultsIn (map_to_list expectedResults) expectedResults gotResults.

(** ** Fixtures: authorities with a fixed answer, and the roles of the test suite *)

Definition authorityWith (rules : list ResourceRule) (evaluationError : string)
    : kubernetes.Interface :=
  {| kubernetes.SelfSubjectRulesReviews_Create sarr :=
       Ok {| Spec := Spec sarr;
             Status := {| ResourceRules := rules; Incomplete := false;
                          EvaluationError := evaluationError |} |} |}.

Definition failingAuthority (err : error) : kubernetes.Interface :=
  {| kubernetes.SelfSubjectRulesReviews_Create _ := Err err |}.

Definition managedClustersRule (names verbs : list string) : ResourceRule :=
  {| Verbs := verbs; APIGroups := ["cluster.open-cluster-management.io"];
     Resources := ["managedclusters"]; ResourceNames := names |}.

Definition viewBlueMetrics : ResourceRule :=
  managedClustersRule ["devcluster1"; "devcluster2"]
    ["metrics/nsblue1"; "metrics/nsblue2"; "metrics/nsblue3"].
Definition viewRedMetrics : ResourceRule :=
  managedClustersRule ["devcluster1"; "devcluster2"] ["metrics/nsred1"; "metrics/nsred2"].
Definition viewSystemMetrics : ResourceRule :=
  managedClustersRule [] ["metrics/kube-system"].
Definition listClusters : ResourceRule := managedClustersRule [] ["list"].
Definition clusterAdmin : ResourceRule :=
  {| Verbs := ["*"]; APIGroups := ["*"]; Resources := ["*"]; ResourceNames := [] |}.
Definition selfReview : ResourceRule :=
  {| Verbs := ["create"]; APIGroups := ["authorization.k8s.io"];
     Resources := ["selfsubjectaccessreviews"; "selfsubjectrulesreviews"];
     ResourceNames := [] |}.

Definition baseK8sConfig : rest.Config :=
  {| rest.Host := "https://127.0.0.1:6443"; rest.APIPath := "";
     rest.BearerToken := ""; rest.BearerTokenFile := "";
     rest.TLS := {| rest.Insecure := true; rest.ServerName := "";
                    rest.CAFile := ""; rest.CAData := "" |} |}.

(** A client-go whose every client is [user-purple]'s. *)
Definition purpleClientSet : kubernetes.ClientSet :=
  {| kubernetes.NewForConfig _ :=
       Ok (authorityWith [selfReview; viewBlueMetrics; viewRedMetrics] "") |}.

(** A reviewer built on a client, as the tests build theirs. *)
Definition reviewerWith (rules : list ResourceRule) : AccessReviewer :=
  {| kubeConfig := None; kubeClient := Some (authorityWith rules "") |}.

Definition redReviewer : AccessReviewer := reviewerWith [selfReview; viewRedMetrics].

Definition clusterListerReviewer : AccessReviewer := reviewerWith [selfReview; listClusters].

(** * Properties *)

(** ** The Go library functions *)

Lemma append_String (c : Ascii.ascii) (s t : string) :
  String c s +:+ t = String c (s +:+ t).
Proof. reflexivity. Qed.

Lemma HasPrefix_app (s prefix : string) :
  strings.HasPrefix s prefix = true ↔ ∃ rest, s = prefix +:+ rest.
Proof.
  revert s. induction prefix as [|c prefix IH]; intros s; simpl.
  - split; [intros _; by exists s | done].
  - destruct s as [|d s]; simpl.
    + split; [done | intros [rest Hrest]; discriminate].
    + destruct (Ascii.eqb_spec d c) as [->|Hne].
      * rewrite IH. split; intros [rest Hrest]; exists rest;
          rewrite append_String in *; congruence.
      * split; [done | intros [rest Hrest]; rewrite append_String in Hrest; congruence].
Qed.

Lemma drop_bytes_app (prefix rest : string) :
  strings.drop_bytes (String.length prefix) (prefix +:+ rest) = rest.
Proof. induction prefix as [|c prefix IH]; [done|]. rewrite append_String. apply IH. Qed.

Lemma TrimPrefix_app (prefix rest : string) :
  strings.TrimPrefix (prefix +:+ rest) prefix = rest.
Proof.
  unfold strings.TrimPrefix.
  assert (strings.HasPrefix (prefix +:+ rest) prefix = true) as ->
    by (apply HasPrefix_app; eauto).
  apply drop_bytes_app.
Qed.

Lemma Contains_elem_of (s : list string) (v : string) :
  slices.Contains s v = true ↔ v ∈ s.
Proof.
  induction s as [|x s IH]; simpl.
  - split; [done | by intros ?%elem_of_nil].
  - rewrite elem_of_cons. destruct (String.eqb_spec v x) as [->|Hne].
    + naive_solver.
    + rewrite IH. naive_solver.
Qed.

Lemma Contains_false (s : list string) (v : string) :
  slices.Contains s v = false ↔ v ∉ s.
Proof. rewrite <-Contains_elem_of. destruct (slices.Contains s v); naive_solver. Qed.

Lemma length_eqb_0 {A} (l : list A) : (length l =? 0)%nat = true ↔ l = [].
Proof. destruct l; simpl; naive_solver. Qed.

(** ** [addUniqueItems] *)

Lemma elem_of_addUniqueItem (l : list string) (item x : string) :
  x ∈ addUniqueItem l item ↔ x ∈ l ∨ x = item.
Proof.
  unfold addUniqueItem. destruct (slices.Contains l item) eqn:Hc; simpl.
  - apply Contains_elem_of in Hc. naive_solver.
  - rewrite elem_of_app, list_elem_of_singleton. done.
Qed.

Lemma elem_of_addUniqueItems (l items : list string) (x : string) :
  x ∈ addUniqueItems l items ↔ x ∈ l ∨ x ∈ items.
Proof.
  unfold addUniqueItems. revert l.
  induction items as [|i items IH]; intros l; simpl.
  - rewrite elem_of_nil. naive_solver.
  - rewrite IH, elem_of_addUniqueItem, elem_of_cons. naive_solver.
Qed.

Lemma NoDup_addUniqueItem (l : list string) (item : string) :
  NoDup l → NoDup (addUniqueItem l item).
Proof.
  intros Hl. unfold addUniqueItem.
  destruct (slices.Contains l item) eqn:Hc; simpl; [done|].
  apply Contains_false in Hc. apply NoDup_app. split_and!; [done| |apply NoDup_singleton].
  intros x Hx ->%list_elem_of_singleton. done.
Qed.

Lemma NoDup_addUniqueItems (l items : list string) :
  NoDup l → NoDup (addUniqueItems l items).
Proof.
  unfold addUniqueItems. revert l.
  induction items as [|i items IH]; intros l Hl; simpl; [done|].
  by apply IH, NoDup_addUniqueItem.
Qed.

Lemma addUniqueItems_absorb (l items : list string) :
  (∀ x, x ∈ items → x ∈ l) → addUniqueItems l items = l.
Proof.
  unfold addUniqueItems.
  induction items as [|i items IH]; intros Hsub; simpl; [done|].
  unfold addUniqueItem at 2.
  assert (slices.Contains l i = true) as ->
    by (apply Contains_elem_of, Hsub; left).
  simpl. apply IH. intros x Hx. apply Hsub. by right.
Qed.

Lemma addUniqueItems_idemp (l items : list string) :
  addUniqueItems (addUniqueItems l items) items = addUniqueItems l items.
Proof.
  apply addUniqueItems_absorb. intros x Hx. apply elem_of_addUniqueItems. by right.
Qed.

Lemma addUniqueItems_prefix (l items : list string) :
  l `prefix_of` addUniqueItems l items.
Proof.
  unfold addUniqueItems. revert l.
  induction items as [|i items IH]; intros l; simpl; [done|].
  etrans; [|apply IH]. unfold addUniqueItem.
  destruct (slices.Contains l i); simpl; [done | by apply prefix_app_r].
Qed.

(** ** The loop of [GetResourceAccess] over the rules *)

Lemma ruleMatches_bool (gr : schema.GroupResource) (rule : ResourceRule) :
  ruleMatchesAPIGroup gr rule && ruleMatchesResource gr rule = true ↔ ruleMatches gr rule.
Proof.
  unfold ruleMatchesAPIGroup, ruleMatchesResource, ruleMatches.
  rewrite andb_true_iff, !orb_true_iff, !Contains_elem_of. done.
Qed.

Lemma mergeVerbs_lookup (name : string) (verbs : list string)
    (results : gmap string (list string)) (k : string) :
  mergeVerbs name verbs results !! k =
    if decide (name = k) then Some (addUniqueItems (default [] (results !! k)) verbs)
    else results !! k.
Proof.
  unfold mergeVerbs. rewrite lookup_insert. by case_decide; subst.
Qed.

(** Merging the same verbs under a selection of the names of a list. *)
Lemma foldl_mergeVerbs_lookup (P : string → bool) (verbs names : list string)
    (results : gmap string (list string)) (k : string) :
  foldl (λ results n, if P n then mergeVerbs n verbs results else results) results names !! k =
    if decide (k ∈ names ∧ P k = true)
    then Some (addUniqueItems (default [] (results !! k)) verbs)
    else results !! k.
Proof.
  revert results. induction names as [|n names IH]; intros results; simpl.
  - done.
  - rewrite IH. destruct (P n) eqn:HPn.
    + rewrite mergeVerbs_lookup. destruct (decide (n = k)) as [->|Hne]; simpl.
      * rewrite addUniqueItems_idemp.
        rewrite (decide_True (P := k ∈ k :: names ∧ _)) by (split; [left|done]).
        by case_decide.
      * apply decide_ext. rewrite elem_of_cons. naive_solver.
    + apply decide_ext. rewrite elem_of_cons.
      split; [naive_solver | intros [[->|?] ?]; [congruence | done]].
Qed.

Lemma applyRule_lookup (gr : schema.GroupResource) (resourcenames : list string)
    (results : gmap string (list string)) (rule : ResourceRule) (k : string) :
  applyRule gr resourcenames results rule !! k =
    if decide (ruleMatches gr rule ∧ ruleCovers resourcenames rule k)
    then Some (addUniqueItems (default [] (results !! k)) (Verbs rule))
    else results !! k.
Proof.
  unfold applyRule.
  destruct (ruleMatchesAPIGroup gr rule && ruleMatchesResource gr rule) eqn:Hm; simpl.
  2:{ rewrite decide_False; [done|]. intros [Hr%ruleMatches_bool _]. congruence. }
  apply ruleMatches_bool in Hm.
  destruct (ResourceNames rule) as [|rn rns] eqn:Hrn; simpl.
  - destruct resourcenames as [|n names]; simpl.
    + rewrite mergeVerbs_lookup. apply decide_ext.
      unfold ruleCovers. rewrite Hrn. naive_solver.
    + pose proof (foldl_mergeVerbs_lookup (λ _, true) (Verbs rule) names
                    (mergeVerbs n (Verbs rule) results) k) as Hf.
      simpl in Hf. rewrite Hf, mergeVerbs_lookup. clear Hf.
      destruct (decide (n = k)) as [->|Hne]; simpl.
      * rewrite addUniqueItems_idemp.
        rewrite (decide_True (P := ruleMatches _ _ ∧ _)).
        -- by case_decide.
        -- split; [done|]. unfold ruleCovers. rewrite Hrn. left.
      * apply decide_ext. unfold ruleCovers. rewrite Hrn, elem_of_cons. naive_solver.
  - pose proof (foldl_mergeVerbs_lookup
                  (λ x, (length resourcenames =? 0)%nat || slices.Contains resourcenames x)
                  (Verbs rule) (rn :: rns) results k) as Hf.
    simpl in Hf. simpl. rewrite Hf. clear Hf.
    apply decide_ext. rewrite orb_true_iff, length_eqb_0, Contains_elem_of.
    unfold ruleCovers. rewrite Hrn.
    destruct resourcenames as [|n names].
    + naive_solver.
    + split; [intros [? [?|?]]; [done|naive_solver] | naive_solver].
Qed.

Section rules_loop.
Context (gr : schema.GroupResource) (resourcenames : list string).

Lemma foldl_applyRule_is_Some (rules : list ResourceRule)
    (results : gmap string (list string)) (k : string) :
  is_Some (foldl (applyRule gr resourcenames) results rules !! k) ↔
  is_Some (results !! k) ∨ someRuleCovers gr resourcenames rules k.
Proof.
  unfold someRuleCovers. revert results.
  induction rules as [|rule rules IH]; intros results; simpl.
  - split; [by left | intros [?|(? & []%elem_of_nil & _)]; done].
  - rewrite IH, applyRule_lookup. case_decide as Hd.
    + split; [intros _; right; exists rule; split; [left | done] | intros _; left; eauto].
    + split.
      * intros [?|(r & Hr & ?)]; [by left | right; exists r; split; [by right | done]].
      * intros [?|(r & [->|Hr]%elem_of_cons & ?)]; [by left | done | right; eauto].
Qed.

Lemma foldl_applyRule_elem_of (rules : list ResourceRule)
    (results : gmap string (list string)) (k v : string) :
  v ∈ default [] (foldl (applyRule gr resourcenames) results rules !! k) ↔
  v ∈ default [] (results !! k) ∨
  ∃ rule, rule ∈ rules ∧ ruleMatches gr rule ∧ ruleCovers resourcenames rule k
          ∧ v ∈ Verbs rule.
Proof.
  revert results. induction rules as [|rule rules IH]; intros results; simpl.
  - split; [by left | intros [?|(? & []%elem_of_nil & _)]; done].
  - rewrite IH, applyRule_lookup. case_decide as Hd; simpl.
    + rewrite elem_of_addUniqueItems. split.
      * intros [[?|?]|(r & Hr & ?)];
          [by left | right; exists rule; split; [left | naive_solver]
          | right; exists r; split; [by right | done]].
      * intros [?|(r & [->|Hr]%elem_of_cons & ? & ? & ?)];
          [left; by left | left; by right | right; eauto].
    + split.
      * intros [?|(r & Hr & ?)]; [by left | right; exists r; split; [by right | done]].
      * intros [?|(r & [->|Hr]%elem_of_cons & ? & ? & ?)];
          [by left | naive_solver | right; eauto].
Qed.

Lemma uniqueEntries_empty : uniqueEntries ∅.
Proof. intros k l. by rewrite lookup_empty. Qed.

Lemma applyRule_uniqueEntries (results : gmap string (list string)) (rule : ResourceRule) :
  uniqueEntries results → uniqueEntries (applyRule gr resourcenames results rule).
Proof.
  intros Hu k l. rewrite applyRule_lookup. case_decide; [|apply Hu].
  intros [= <-]. apply NoDup_addUniqueItems.
  destruct (results !! k) as [l'|] eqn:Hk; simpl; [by eapply Hu | apply NoDup_nil_2].
Qed.

Lemma foldl_applyRule_uniqueEntries (rules : list ResourceRule)
    (results : gmap string (list string)) :
  uniqueEntries results → uniqueEntries (foldl (applyRule gr resourcenames) results rules).
Proof.
  revert results. induction rules as [|rule rules IH]; intros results Hu; simpl; [done|].
  by apply IH, applyRule_uniqueEntries.
Qed.

Lemma addMissingEntries_lookup (results : gmap string (list string)) (k : string) :
  addMissingEntries resourcenames results !! k =
    match results !! k with
    | Some l => Some l
    | None => if decide (k ∈ resourcenames) then Some [] else None
    end.
Proof.
  unfold addMissingEntries.
  assert (∀ (names : list string) (results : gmap string (list string)),
    foldl (λ results rname,
             match results !! rname with
             | Some _ => results
             | None => <[rname := []]> results
             end) results names !! k =
    match results !! k with
    | Some l => Some l
    | None => if decide (k ∈ names) then Some [] else None
    end) as Hfold.
  { clear. induction names as [|n names IH]; intros results; simpl.
    - by destruct (results !! k).
    - rewrite IH. destruct (results !! n) as [ln|] eqn:Hn.
      + destruct (results !! k) as [lk|] eqn:Hk; [done|].
        apply decide_ext. rewrite elem_of_cons. naive_solver.
      + rewrite lookup_insert. destruct (decide (n = k)) as [->|Hne].
        * rewrite Hn. rewrite decide_True by left. done.
        * destruct (results !! k); [done|].
          apply decide_ext. rewrite elem_of_cons. naive_solver. }
  destruct (length resourcenames =? 0)%nat eqn:Hlen; simpl.
  - apply length_eqb_0 in Hlen. rewrite Hlen in *.
    by destruct (results !! k).
  - apply Hfold.
Qed.

(** *** The map [GetResourceAccess] builds from a list of rules *)

Lemma resourceAccessOfRules_is_Some (rules : list ResourceRule) (k : string) :
  is_Some (resourceAccessOfRules gr resourcenames rules !! k) ↔
  someRuleCovers gr resourcenames rules k ∨ k ∈ resourcenames.
Proof.
  unfold resourceAccessOfRules. rewrite addMissingEntries_lookup.
  assert (is_Some (foldl (applyRule gr resourcenames) ∅ rules !! k)
          ↔ someRuleCovers gr resourcenames rules k) as Hs.
  { rewrite foldl_applyRule_is_Some, lookup_empty.
    split; [intros [?%is_Some_None|?]; done | by right]. }
  destruct (foldl (applyRule gr resourcenames) ∅ rules !! k) as [l|] eqn:Hk.
  - split; [intros _; left; apply Hs; eauto | eauto].
  - case_decide.
    + split; [by right | eauto].
    + split; [by intros ?%is_Some_None|].
      intros [Hc%Hs%is_Some_None|?]; done.
Qed.

Lemma resourceAccessOfRules_elem_of (rules : list ResourceRule) (k v : string) :
  v ∈ default [] (resourceAccessOfRules gr resourcenames rules !! k) ↔
  ∃ rule, rule ∈ rules ∧ ruleMatches gr rule ∧ ruleCovers resourcenames rule k
          ∧ v ∈ Verbs rule.
Proof.
  unfold resourceAccessOfRules. rewrite addMissingEntries_lookup.
  pose proof (foldl_applyRule_elem_of rules ∅ k v) as He.
  rewrite lookup_empty in He. simpl in He.
  destruct (foldl (applyRule gr resourcenames) ∅ rules !! k) as [l|] eqn:Hk; simpl in *.
  - rewrite He. split; [intros [[]%elem_of_nil|?]; done | by right].
  - assert (v ∈ default [] (if decide (k ∈ resourcenames) then Some [] else None)
            ↔ v ∈ @nil string) as -> by (by case_decide).
    rewrite He. split; [intros [[]%elem_of_nil|?]; done | by right].
Qed.

Lemma resourceAccessOfRules_NoDup (rules : list ResourceRule) (k : string) (l : list string) :
  resourceAccessOfRules gr resourcenames rules !! k = Some l → NoDup l.
Proof.
  unfold resourceAccessOfRules. rewrite addMissingEntries_lookup.
  pose proof (foldl_applyRule_uniqueEntries rules ∅ uniqueEntries_empty k) as Hu.
  destruct (foldl (applyRule gr resourcenames) ∅ rules !! k) as [l'|] eqn:Hk.
  - intros [= <-]. by apply Hu.
  - case_decide; [|done]. intros [= <-]. apply NoDup_nil_2.
Qed.

Lemma resourceAccessOfRules_dom (rules : list ResourceRule) :
  resourcenames ≠ [] →
  dom (resourceAccessOfRules gr resourcenames rules) = list_to_set resourcenames.
Proof.
  intros Hne. apply set_eq. intros k.
  rewrite elem_of_dom, resourceAccessOfRules_is_Some, elem_of_list_to_set.
  split; [|by right]. intros [(rule & _ & _ & Hc)|?]; [|done].
  unfold ruleCovers in Hc.
  destruct (ResourceNames rule), resourcenames; naive_solver.
Qed.
End rules_loop.

(** ** [makeSubjectRulesReviewForUser] and [GetResourceAccess] as calls *)

Lemma makeSubjectRulesReviewForUser_Ok (c : kubernetes.Interface) (namespace : string)
    (response : SelfSubjectRulesReview) :
  kubernetes.SelfSubjectRulesReviews_Create c (rulesReviewRequest namespace) = Ok response →
  makeSubjectRulesReviewForUser (Some c) namespace =
    (if String.eqb (EvaluationError (Status response)) "" then []
     else [evaluationErrorLine (rulesReviewRequest namespace) response],
     Ok (ResourceRules (Status response))).
Proof.
  intros Hc. unfold makeSubjectRulesReviewForUser. rewrite Hc.
  by destruct (String.eqb (EvaluationError (Status response)) "").
Qed.

Lemma makeSubjectRulesReviewForUser_Err (c : kubernetes.Interface) (namespace : string)
    (err : error) :
  (makeSubjectRulesReviewForUser (Some c) namespace).2 = Err err ↔
  kubernetes.SelfSubjectRulesReviews_Create c (rulesReviewRequest namespace) = Err err.
Proof.
  unfold makeSubjectRulesReviewForUser.
  destruct (kubernetes.SelfSubjectRulesReviews_Create c _) as [response|e|] eqn:Hc; simpl.
  - destruct (String.eqb (EvaluationError (Status response)) ""); simpl; split; done.
  - split; congruence.
  - split; done.
Qed.

Lemma GetResourceAccess_Ok (kclient : option kubernetes.Interface)
    (gr : schema.GroupResource) (resourcenames : list string) (namespace : string)
    (log : list string) (results : gmap string (list string)) :
  GetResourceAccess kclient gr resourcenames namespace = (log, Ok results) ↔
  ∃ rules, makeSubjectRulesReviewForUser kclient namespace = (log, Ok rules) ∧
           results = resourceAccessOfRules gr resourcenames rules.
Proof.
  unfold GetResourceAccess, bind, ret.
  destruct (makeSubjectRulesReviewForUser kclient namespace) as [l [rules|e|]].
  - rewrite app_nil_r. split.
    + intros [= <- <-]. eauto.
    + intros (rules' & [= <- <-] & ->). done.
  - split; [done | intros (? & [=] & _)].
  - split; [done | intros (? & [=] & _)].
Qed.

Lemma GetResourceAccess_authorityWith (rules : list ResourceRule)
    (gr : schema.GroupResource) (resourcenames : list string) (namespace : string) :
  GetResourceAccess (Some (authorityWith rules "")) gr resourcenames namespace =
    ([], Ok (resourceAccessOfRules gr resourcenames rules)).
Proof. reflexivity. Qed.

(** Two lists without duplicates holding the same items are arrangements of
    one another; so are the results built from rule lists with the same rules. *)
Lemma resourceAccessOfRules_sameAccess (gr : schema.GroupResource)
    (resourcenames : list string) (rules rules' : list ResourceRule) :
  (∀ rule, rule ∈ rules ↔ rule ∈ rules') →
  sameAccess (resourceAccessOfRules gr resourcenames rules)
             (resourceAccessOfRules gr resourcenames rules').
Proof.
  intros Hrules name.
  pose proof (resourceAccessOfRules_is_Some gr resourcenames rules name) as Hs.
  pose proof (resourceAccessOfRules_is_Some gr resourcenames rules' name) as Hs'.
  assert (someRuleCovers gr resourcenames rules name
          ↔ someRuleCovers gr resourcenames rules' name) as Hc.
  { unfold someRuleCovers. split; intros (r & Hr & ?); exists r; split; try done;
      by apply Hrules. }
  pose proof (resourceAccessOfRules_elem_of gr resourcenames rules name) as He.
  pose proof (resourceAccessOfRules_elem_of gr resourcenames rules' name) as He'.
  destruct (resourceAccessOfRules gr resourcenames rules !! name) as [l|] eqn:Hl;
    destruct (resourceAccessOfRules gr resourcenames rules' !! name) as [l'|] eqn:Hl'.
  - apply NoDup_Permutation.
    + by eapply resourceAccessOfRules_NoDup.
    + by eapply resourceAccessOfRules_NoDup.
    + intros v. simpl in He, He'. rewrite He, He'.
      split; intros (r & Hr & ?); exists r; split; try done; by apply Hrules.
  - apply (is_Some_None (A := list string)). apply Hs'. rewrite <-Hc. apply Hs. eauto.
  - apply (is_Some_None (A := list string)). apply Hs. rewrite Hc. apply Hs'. eauto.
  - done.
Qed.

(** ** The decoding of the verbs of a cluster *)

Lemma append_inj (prefix s t : string) : prefix +:+ s = prefix +:+ t → s = t.
Proof.
  induction prefix as [|c prefix IH]; [done|].
  rewrite !append_String. intros [= Heq]. by apply IH.
Qed.

Lemma decodeVerb_is_Some (metricsAccessMap : gmap string bool) (acl ns : string) :
  is_Some (decodeVerb metricsAccessMap acl !! ns) ↔
  is_Some (metricsAccessMap !! ns) ∨ verbGrants acl ns.
Proof.
  unfold decodeVerb, verbGrants.
  destruct (strings.HasPrefix acl (verb MetricsACLConfig)) eqn:Hp.
  - apply HasPrefix_app in Hp as [rest ->]. rewrite TrimPrefix_app, lookup_insert.
    case_decide as Hd.
    + subst. split; [intros _; right; by left | eauto].
    + split; [by left|]. intros [?|[Heq%append_inj|[Heq _]]]; [done|done|].
      vm_compute in Heq. discriminate.
  - destruct (String.eqb_spec acl "*") as [->|Hne].
    + rewrite lookup_insert. case_decide as Hd.
      * subst. split; [intros _; right; by right | eauto].
      * split; [by left|]. intros [?|[Heq|[_ ?]]]; [done| |done].
        vm_compute in Heq. discriminate.
    + split; [by left|]. intros [?|[->|[? _]]]; [done| |done].
      assert (strings.HasPrefix (verb MetricsACLConfig +:+ ns) (verb MetricsACLConfig) = true)
        by (apply HasPrefix_app; eauto).
      congruence.
Qed.

Lemma metricsAccessMapOf_is_Some (clusteracls : list string) (ns : string) :
  is_Some (metricsAccessMapOf clusteracls !! ns) ↔
  ∃ acl, acl ∈ clusteracls ∧ verbGrants acl ns.
Proof.
  unfold metricsAccessMapOf.
  assert (∀ (m : gmap string bool),
    is_Some (foldl decodeVerb m clusteracls !! ns) ↔
    is_Some (m !! ns) ∨ ∃ acl, acl ∈ clusteracls ∧ verbGrants acl ns) as Hfold.
  { induction clusteracls as [|acl acls IH]; intros m; simpl.
    - split; [by left | intros [?|(? & []%elem_of_nil & _)]; done].
    - rewrite IH, decodeVerb_is_Some. split.
      + intros [[?|?]|(a & Ha & ?)];
          [by left | right; exists acl; split; [left | done]
          | right; exists a; split; [by right | done]].
      + intros [?|(a & [->|Ha]%elem_of_cons & ?)];
          [left; by left | left; by right | right; eauto]. }
  rewrite Hfold, lookup_empty.
  split; [intros [?%is_Some_None|?]; done | by right].
Qed.

Lemma nsWithMetricsAccessOf_NoDup (clusteracls ns : list string) :
  nsWithMetricsAccessOf clusteracls ns → NoDup ns.
Proof.
  intros (visited & Hv & ->). unfold rangeOver in Hv. rewrite Hv.
  apply NoDup_fst_map_to_list.
Qed.

Lemma nsWithMetricsAccessOf_elem_of (clusteracls ns : list string) (x : string) :
  nsWithMetricsAccessOf clusteracls ns →
  x ∈ ns ↔ ∃ acl, acl ∈ clusteracls ∧ verbGrants acl x.
Proof.
  intros (visited & Hv & ->). unfold rangeOver in Hv. rewrite Hv.
  rewrite <-metricsAccessMapOf_is_Some, list_elem_of_fmap. split.
  - intros ([k b] & -> & Hkb%elem_of_map_to_list). eauto.
  - intros [b Hb]. exists (x, b). split; [done | by apply elem_of_map_to_list].
Qed.

Lemma nsWithMetricsAccessOf_nil (clusteracls ns : list string) :
  nsWithMetricsAccessOf clusteracls ns →
  ns = [] ↔ metricsAccessMapOf clusteracls = ∅.
Proof.
  intros (visited & Hv & ->). unfold rangeOver in Hv. split.
  - intros Hnil. destruct visited; [|done].
    symmetry in Hv. apply Permutation_nil_r in Hv.
    by apply map_to_list_empty_iff.
  - intros Hm. rewrite Hm, map_to_list_empty in Hv.
    apply Permutation_nil_r in Hv. by subst.
Qed.

Lemma nsWithMetricsAccessOf_Permutation (clusteracls ns ns' : list string) :
  nsWithMetricsAccessOf clusteracls ns → nsWithMetricsAccessOf clusteracls ns' → ns ≡ₚ ns'.
Proof.
  intros (v & Hv & ->) (v' & Hv' & ->). unfold rangeOver in *.
  by rewrite Hv, Hv'.
Qed.

(** The map is used as a set: every value stored is [true]. *)
Lemma metricsAccessMapOf_true (clusteracls : list string) (k : string) (b : bool) :
  metricsAccessMapOf clusteracls !! k = Some b → b = true.
Proof.
  unfold metricsAccessMapOf.
  assert (∀ m : gmap string bool, (∀ b, m !! k = Some b → b = true) →
            ∀ b, foldl decodeVerb m clusteracls !! k = Some b → b = true) as Hall.
  { induction clusteracls as [|a acls IH]; intros m Hm; simpl; [done|].
    apply IH. intros b'. unfold decodeVerb.
    repeat case_match; try apply Hm;
      rewrite lookup_insert; case_decide; naive_solver. }
  apply Hall. intros b'. by rewrite lookup_empty.
Qed.

(** Any arrangement of the keys is a possible [nsWithMetricsAccess]. *)
Lemma nsWithMetricsAccessOf_order (order : list string → list string)
    (clusteracls : list string) :
  (∀ l, order l ≡ₚ l) →
  nsWithMetricsAccessOf clusteracls
    (order (map_to_list (metricsAccessMapOf clusteracls)).*1).
Proof.
  intros Ho. unfold nsWithMetricsAccessOf, rangeOver.
  specialize (Ho (map_to_list (metricsAccessMapOf clusteracls)).*1).
  exists ((λ k, (k, true)) <$> order (map_to_list (metricsAccessMapOf clusteracls)).*1).
  split.
  - assert ((λ k, (k, true)) <$> (map_to_list (metricsAccessMapOf clusteracls)).*1
            = map_to_list (metricsAccessMapOf clusteracls)) as Heq.
    { rewrite <-list_fmap_compose. rewrite <-(list_fmap_id (map_to_list _)) at 2.
      apply list_fmap_ext. intros i [k b] Hi. simpl.
      apply list_elem_of_lookup_2, elem_of_map_to_list in Hi.
      apply metricsAccessMapOf_true in Hi. by subst. }
    by rewrite Ho, Heq.
  - rewrite <-list_fmap_compose. by rewrite list_fmap_id.
Qed.

(** ** The loop of [GetMetricsAccess] over the clusters *)

Lemma addCluster_included (clusters : list string) (results : gmap string (list string))
    (clustername : string) (clusteracls ns : list string) :
  nsWithMetricsAccessOf clusteracls ns →
  addCluster clusters results clustername ns =
    if decide (clusterIncluded clusters clustername clusteracls)
    then <[clustername := ns]> results else results.
Proof.
  intros Hns. unfold addCluster, clusterIncluded.
  pose proof (nsWithMetricsAccessOf_nil _ _ Hns) as Hnil.
  destruct ((0 <? length ns)%nat || slices.Contains clusters clustername) eqn:Hb.
  - rewrite decide_True; [done|].
    apply orb_true_iff in Hb as [Hlen|Hc%Contains_elem_of]; [left | by right].
    intros Hm%Hnil. by subst.
  - rewrite decide_False; [done|].
    apply orb_false_iff in Hb as [Hlen Hc%Contains_false].
    intros [Hm|?]; [|done]. apply Hm, Hnil. by destruct ns.
Qed.

Lemma metricsLoop_lookup (clusters : list string)
    (results : gmap string (list string)) (visited : list (string * list string))
    (results' : gmap string (list string)) :
  metricsLoop clusters results visited results' →
  NoDup visited.*1 →
  ∀ c, (c ∉ visited.*1 → results' !! c = results !! c) ∧
       (∀ acls, (c, acls) ∈ visited →
          if decide (clusterIncluded clusters c acls)
          then ∃ ns, nsWithMetricsAccessOf acls ns ∧ results' !! c = Some ns
          else results' !! c = results !! c).
Proof.
  induction 1 as [results|results cn acls rest ns results' Hns Hloop IH]; intros Hnd c.
  - split; [done | by intros ? ?%elem_of_nil].
  - rewrite fmap_cons in Hnd. simpl in Hnd. apply NoDup_cons in Hnd as [Hcn Hnd].
    destruct (IH Hnd c) as [IHout IHin]. rewrite (addCluster_included _ _ _ _ _ Hns) in *.
    split.
    + rewrite fmap_cons, not_elem_of_cons. simpl. intros [Hne Hc].
      rewrite IHout by done. case_decide; [by rewrite lookup_insert_ne|done].
    + intros a [[= -> ->]|Ha]%elem_of_cons.
      * rewrite IHout by done. case_decide.
        -- exists ns. by rewrite lookup_insert_eq.
        -- done.
      * assert (cn ≠ c) as Hne.
        { intros ->. apply Hcn. apply list_elem_of_fmap. by exists (c, a). }
        specialize (IHin a Ha). case_decide; [done|].
        rewrite IHin. case_decide; [by rewrite lookup_insert_ne|done].
Qed.

Lemma metricsLoop_decodesTo (clusters : list string)
    (resourceACLs : gmap string (list string)) (visited : list (string * list string))
    (metricsAccessResults : gmap string (list string)) :
  rangeOver resourceACLs visited →
  metricsLoop clusters ∅ visited metricsAccessResults →
  decodesTo clusters resourceACLs metricsAccessResults.
Proof.
  intros Hv Hloop c. unfold rangeOver in Hv.
  assert (NoDup visited.*1) as Hnd by (rewrite Hv; apply NoDup_fst_map_to_list).
  destruct (metricsLoop_lookup _ _ _ _ Hloop Hnd c) as [Hout Hin].
  destruct (resourceACLs !! c) as [acls|] eqn:Hc.
  - assert ((c, acls) ∈ visited) as Hel by (rewrite Hv; by apply elem_of_map_to_list).
    specialize (Hin acls Hel). case_decide; [done|]. by rewrite Hin, lookup_empty.
  - rewrite Hout, lookup_empty; [done|].
    rewrite Hv. intros ([k a] & -> & Hka%elem_of_map_to_list)%list_elem_of_fmap.
    simpl in Hc. congruence.
Qed.

Lemma metricsLoop_foldl (order : list string → list string) (clusters : list string)
    (visited : list (string * list string)) (results : gmap string (list string)) :
  (∀ l, order l ≡ₚ l) →
  metricsLoop clusters results visited
    (foldl (λ results '(clustername, clusteracls),
              addCluster clusters results clustername
                (order (map_to_list (metricsAccessMapOf clusteracls)).*1))
           results visited).
Proof.
  intros Ho. revert results.
  induction visited as [|[cn acls] rest IH]; intros results; simpl.
  - constructor.
  - econstructor; [by apply nsWithMetricsAccessOf_order | apply IH].
Qed.

Section calls.
Context `{kubernetes.ClientSet}.

(** A successful [GetMetricsAccess] went through a successful
    [GetResourceAccess] and decoded its result. *)
Lemma GetMetricsAccess_Ok (r : AccessReviewer) (userToken : string)
    (clusters : list string) (log : list string)
    (metricsAccessResults : gmap string (list string)) :
  GetMetricsAccess r userToken clusters (log, Ok metricsAccessResults) →
  ∃ userKClient resourceACLs,
    getKubeClientForUser r userToken = Ok userKClient ∧
    GetResourceAccess userKClient (groupRes MetricsACLConfig) clusters ""
      = (log, Ok resourceACLs) ∧
    decodesTo clusters resourceACLs metricsAccessResults.
Proof.
  unfold GetMetricsAccess.
  destruct (getKubeClientForUser r userToken) as [kc|e|]; [|done..].
  destruct (GetResourceAccess kc _ clusters "") as [l [acls|e|]] eqn:Hacls; [|done..].
  intros (visited & res & Hv & Hloop & [= -> ->]).
  exists kc, acls. split_and!; [done..|]. by eapply metricsLoop_decodesTo.
Qed.

(** Every choice of orders is a run: the call always has a result. *)
Lemma GetMetricsAccessInOrder_run (order : list string → list string)
    (r : AccessReviewer) (userToken : string) (clusters : list string) :
  (∀ l, order l ≡ₚ l) →
  GetMetricsAccess r userToken clusters
    (GetMetricsAccessInOrder order r userToken clusters).
Proof.
  intros Ho. unfold GetMetricsAccess, GetMetricsAccessInOrder.
  destruct (getKubeClientForUser r userToken) as [kc|e|]; [|done..].
  unfold bind, ret.
  destruct (GetResourceAccess kc _ clusters "") as [l [acls|e|]]; [|done..].
  exists (map_to_list acls), (decodeInOrder order clusters (map_to_list acls)).
  split_and!; [by unfold rangeOver | by apply metricsLoop_foldl | by rewrite app_nil_r].
Qed.

Lemma GetMetricsAccess_total (r : AccessReviewer) (userToken : string)
    (clusters : list string) :
  ∃ out, GetMetricsAccess r userToken clusters out.
Proof.
  exists (GetMetricsAccessInOrder id r userToken clusters).
  by apply GetMetricsAccessInOrder_run.
Qed.
End calls.

(** ** Value lists built by repeated merging *)

Lemma foldl_addUniqueItems_NoDup (collections : list (list string)) (l : list string) :
  NoDup l → NoDup (foldl addUniqueItems l collections).
Proof.
  revert l. induction collections as [|c cs IH]; intros l Hl; simpl; [done|].
  by apply IH, NoDup_addUniqueItems.
Qed.

Lemma foldl_addUniqueItems_elem_of (collections : list (list string)) (l : list string)
    (x : string) :
  x ∈ foldl addUniqueItems l collections ↔ x ∈ l ∨ ∃ c, c ∈ collections ∧ x ∈ c.
Proof.
  revert l. induction collections as [|c cs IH]; intros l; simpl.
  - split; [by left | intros [?|(? & []%elem_of_nil & _)]; done].
  - rewrite IH, elem_of_addUniqueItems. split.
    + intros [[?|?]|(c' & Hc' & ?)];
        [by left | right; exists c; split; [left | done]
        | right; exists c'; split; [by right | done]].
    + intros [?|(c' & [->|Hc']%elem_of_cons & ?)];
        [left; by left | left; by right | right; eauto].
Qed.

Lemma mergeAll_Permutation (collections collections' : list (list string)) :
  collections ≡ₚ collections' → mergeAll collections ≡ₚ mergeAll collections'.
Proof.
  intros Hp. unfold mergeAll. apply NoDup_Permutation.
  - apply foldl_addUniqueItems_NoDup, NoDup_nil_2.
  - apply foldl_addUniqueItems_NoDup, NoDup_nil_2.
  - intros x. rewrite !foldl_addUniqueItems_elem_of.
    split; (intros [?|(c & Hc & ?)]; [by left | right; exists c; split; [|done]]).
    + by rewrite <-Hp.
    + by rewrite Hp.
Qed.

Lemma addUniqueItems_comm (l items items' : list string) :
  NoDup l →
  addUniqueItems (addUniqueItems l items) items'
  ≡ₚ addUniqueItems (addUniqueItems l items') items.
Proof.
  intros Hl. apply NoDup_Permutation.
  - by do 2 apply NoDup_addUniqueItems.
  - by do 2 apply NoDup_addUniqueItems.
  - intros x. rewrite !elem_of_addUniqueItems. naive_solver.
Qed.

(** ** The scenarios of [TestGetMetricsAccess], on the run that ranges in key order *)

Example user_red_all_clusters :
  GetMetricsAccessInOrder (H := purpleClientSet) id redReviewer "" []
  = ([], Ok {["devcluster1" := ["nsred1"; "nsred2"];
              "devcluster2" := ["nsred1"; "nsred2"]]}).
Proof. vm_compute. reflexivity. Qed.

Example user_red_unknown_cluster :
  GetMetricsAccessInOrder (H := purpleClientSet) id redReviewer "" ["blah"]
  = ([], Ok {["blah" := []]}).
Proof. vm_compute. reflexivity. Qed.

Example user_sysadmin_all_clusters :
  GetMetricsAccessInOrder (H := purpleClientSet) id
    (reviewerWith [selfReview; viewSystemMetrics]) "" []
  = ([], Ok {["*" := ["kube-system"]]}).
Proof. vm_compute. reflexivity. Qed.

Example user_sysadmin_one_cluster :
  GetMetricsAccessInOrder (H := purpleClientSet) id
    (reviewerWith [selfReview; viewSystemMetrics]) "" ["testcluster"]
  = ([], Ok {["testcluster" := ["kube-system"]]}).
Proof. vm_compute. reflexivity. Qed.

Example cluster_admin_all_clusters :
  GetMetricsAccessInOrder (H := purpleClientSet) id
    (reviewerWith [selfReview; clusterAdmin]) "" []
  = ([], Ok {["*" := ["*"]]}).
Proof. vm_compute. reflexivity. Qed.

Example user_clusterlister_all_clusters :
  GetMetricsAccessInOrder (H := purpleClientSet) id clusterListerReviewer "" []
  = ([], Ok ∅).
Proof. vm_compute. reflexivity. Qed.

Example user_clusterlister_two_clusters :
  GetMetricsAccessInOrder (H := purpleClientSet) id clusterListerReviewer ""
    ["devcluster1"; "devcluster2"]
  = ([], Ok {["devcluster1" := []; "devcluster2" := []]}).
Proof. vm_compute. reflexivity. Qed.

(** A reviewer built on a configuration needs a token; one built on nothing
    has no client to call. *)
Example config_without_token :
  ∃ err, GetMetricsAccessInOrder (H := purpleClientSet) id
           {| kubeConfig := Some baseK8sConfig; kubeClient := None |} "" []
         = ([], Err err).
Proof. eexists. reflexivity. Qed.

Example zero_reviewer_panics :
  GetMetricsAccessInOrder (H := purpleClientSet) id
    {| kubeConfig := None; kubeClient := None |} "" []
  = ([], Panic).
Proof. reflexivity. Qed.

(** * The claims *)

(** C5. Merging verb collections with [addUniqueItems] behaves as a set
    union: the result holds exactly the items of the accumulator and of the
    collection merged, the accumulator stays in front in its order, merging
    the same collection a second time changes nothing, two merges into a
    duplicate-free accumulator commute up to the order of the items, and a
    list built from the empty accumulator has no duplicate whatever is
    merged and holds the same items in whatever order the collections come;
    [{A,B}] then [{B,C}] gives [A,B,C]. *)
Theorem addUniqueItems_set_union :
  (∀ l items x, x ∈ addUniqueItems l items ↔ x ∈ l ∨ x ∈ items) ∧
  (∀ l items, l `prefix_of` addUniqueItems l items) ∧
  (∀ l items, addUniqueItems (addUniqueItems l items) items = addUniqueItems l items) ∧
  (∀ l items, NoDup l → NoDup (addUniqueItems l items)) ∧
  (∀ l items items', NoDup l →
     addUniqueItems (addUniqueItems l items) items'
     ≡ₚ addUniqueItems (addUniqueItems l items') items) ∧
  (∀ collections, NoDup (mergeAll collections)) ∧
  (∀ collections x, x ∈ mergeAll collections ↔ ∃ c, c ∈ collections ∧ x ∈ c) ∧
  (∀ collections collections',
     collections ≡ₚ collections' → mergeAll collections ≡ₚ mergeAll collections') ∧
  mergeAll [["A"; "B"]; ["B"; "C"]] = ["A"; "B"; "C"] ∧
  mergeAll [["B"; "C"]; ["A"; "B"]] ≡ₚ ["A"; "B"; "C"] ∧
  mergeAll [["get"]; ["get"]] = ["get"].
Proof.
  split_and!.
  - apply elem_of_addUniqueItems.
  - apply addUniqueItems_prefix.
  - apply addUniqueItems_idemp.
  - apply NoDup_addUniqueItems.
  - apply addUniqueItems_comm.
  - intros cs. apply foldl_addUniqueItems_NoDup, NoDup_nil_2.
  - intros cs x. unfold mergeAll. rewrite foldl_addUniqueItems_elem_of.
    split; [intros [[]%elem_of_nil|?]; done | by right].
  - apply mergeAll_Permutation.
  - reflexivity.
  - apply (mergeAll_Permutation [["B"; "C"]; ["A"; "B"]] [["A"; "B"]; ["B"; "C"]]).
    apply perm_swap.
  - reflexivity.
Qed.

Lemma addUniqueItems_set_union_witness :
  NoDup ["list"] ∧
  [["get"; "list"]; ["watch"]] ≡ₚ [["watch"]; ["get"; "list"]] ∧
  NoDup (addUniqueItems ["list"] ["get"; "list"; "get"]) ∧
  addUniqueItems (addUniqueItems ["list"] ["get"]) ["watch"; "list"]
  ≡ₚ addUniqueItems (addUniqueItems ["list"] ["watch"; "list"]) ["get"] ∧
  mergeAll [["get"; "list"]; ["watch"]] ≡ₚ mergeAll [["watch"]; ["get"; "list"]].
Proof.
  assert (NoDup ["list"]) as Hl by (apply NoDup_singleton).
  assert ([["get"; "list"]; ["watch"]] ≡ₚ [["watch"]; ["get"; "list"]]) as Hp
    by (apply perm_swap).
  destruct addUniqueItems_set_union as (_ & _ & _ & Hnd & Hcomm & _ & _ & Hperm & _).
  split_and!; [done | done | by apply Hnd | by apply Hcomm | by apply Hperm].
Defined.

(** C8. [NewAccessReviewer] returns an error when both arguments are nil and
    when neither is; with exactly one of them it returns a reviewer, which
    holds that one. *)
Theorem NewAccessReviewer_exactly_one :
  NewAccessReviewer None None
    = Err (errors_New "one of either kubeConfig or kubeClient must be a non-nil value") ∧
  (∀ kConfig kClient,
     NewAccessReviewer (Some kConfig) (Some kClient)
     = Err (errors_New "only one of either kubeConfig or kubeClient must be a non-nil value")) ∧
  (∀ kConfig,
     NewAccessReviewer (Some kConfig) None
     = Ok {| kubeConfig := Some kConfig; kubeClient := None |}) ∧
  (∀ kClient,
     NewAccessReviewer None (Some kClient)
     = Ok {| kubeConfig := None; kubeClient := Some kClient |}).
Proof. split_and!; reflexivity. Qed.

(** C9. With a client whose rule-listing call answers,
    [makeSubjectRulesReviewForUser] returns the rules of the answer and no
    error; a non-empty evaluation error only adds a line to the log.  It
    returns an error exactly when the call itself does, and that error. *)
Theorem makeSubjectRulesReviewForUser_partial_results
    (c : kubernetes.Interface) (namespace : string) :
  (∀ response,
     kubernetes.SelfSubjectRulesReviews_Create c (rulesReviewRequest namespace) = Ok response →
     EvaluationError (Status response) ≠ "" →
     makeSubjectRulesReviewForUser (Some c) namespace =
       ([evaluationErrorLine (rulesReviewRequest namespace) response],
        Ok (ResourceRules (Status response)))) ∧
  (∀ response,
     kubernetes.SelfSubjectRulesReviews_Create c (rulesReviewRequest namespace) = Ok response →
     (makeSubjectRulesReviewForUser (Some c) namespace).2
       = Ok (ResourceRules (Status response))) ∧
  (∀ err,
     (makeSubjectRulesReviewForUser (Some c) namespace).2 = Err err ↔
     kubernetes.SelfSubjectRulesReviews_Create c (rulesReviewRequest namespace) = Err err).
Proof.
  split_and!.
  - intros response Hc Hne. rewrite (makeSubjectRulesReviewForUser_Ok _ _ _ Hc).
    destruct (String.eqb_spec (EvaluationError (Status response)) ""); done.
  - intros response Hc. by rewrite (makeSubjectRulesReviewForUser_Ok _ _ _ Hc).
  - apply makeSubjectRulesReviewForUser_Err.
Qed.

Lemma makeSubjectRulesReviewForUser_partial_results_witness :
  kubernetes.SelfSubjectRulesReviews_Create
    (authorityWith [selfReview; viewRedMetrics] "forbidden") (rulesReviewRequest "")
  = Ok {| Spec := Spec (rulesReviewRequest "");
          Status := {| ResourceRules := [selfReview; viewRedMetrics]; Incomplete := false;
                       EvaluationError := "forbidden" |} |} ∧
  "forbidden" ≠ "" ∧
  makeSubjectRulesReviewForUser (Some (authorityWith [selfReview; viewRedMetrics] "forbidden")) ""
  = (["Encountered a SelfSubjectRulesReviews error in namespace $ Invalid $: forbidden"],
     Ok [selfReview; viewRedMetrics]).
Proof.
  split_and!; [reflexivity | discriminate |].
  apply (proj1 (makeSubjectRulesReviewForUser_partial_results
                  (authorityWith [selfReview; viewRedMetrics] "forbidden") "")
               {| Spec := Spec (rulesReviewRequest "");
                  Status := {| ResourceRules := [selfReview; viewRedMetrics];
                               Incomplete := false;
                               EvaluationError := "forbidden" |} |});
    [reflexivity | discriminate].
Defined.

(** C1. A successful [GetResourceAccess] worked on the rules the authority
    returned.  Rule by rule, the entry of a name receives the verbs of the
    rule exactly when the rule matches the target (its API groups hold the
    target's group or ["*"], and its resources hold the target's resource or
    ["*"]) and covers the name: a rule with names covers those of its names
    that are requested, or all of them when nothing is requested; a rule
    without names covers every requested name, or the sentinel ["*"] when
    nothing is requested.  Every other entry is left as it was.  So a verb is
    in the entry of a name in the result exactly when some matching rule
    that covers the name carries it. *)
Theorem GetResourceAccess_merges_matching_rules
    (kclient : option kubernetes.Interface) (gr : schema.GroupResource)
    (resourcenames : list string) (namespace : string)
    (log : list string) (results : gmap string (list string)) :
  GetResourceAccess kclient gr resourcenames namespace = (log, Ok results) →
  ∃ rules,
    makeSubjectRulesReviewForUser kclient namespace = (log, Ok rules) ∧
    results = addMissingEntries resourcenames (foldl (applyRule gr resourcenames) ∅ rules) ∧
    (∀ rule,
       ruleMatchesAPIGroup gr rule && ruleMatchesResource gr rule = true ↔
       (schema.Group gr ∈ APIGroups rule ∨ "*" ∈ APIGroups rule) ∧
       (schema.Resource gr ∈ Resources rule ∨ "*" ∈ Resources rule)) ∧
    (∀ acc rule name,
       applyRule gr resourcenames acc rule !! name =
         if decide (ruleMatches gr rule ∧ ruleCovers resourcenames rule name)
         then Some (addUniqueItems (default [] (acc !! name)) (Verbs rule))
         else acc !! name) ∧
    (∀ name v,
       v ∈ default [] (results !! name) ↔
       ∃ rule, rule ∈ rules ∧ ruleMatches gr rule
               ∧ ruleCovers resourcenames rule name ∧ v ∈ Verbs rule).
Proof.
  intros (rules & Hrules & ->)%GetResourceAccess_Ok.
  exists rules. split_and!; [done | done | | |].
  - intros rule. apply ruleMatches_bool.
  - intros acc rule name. apply applyRule_lookup.
  - intros name v. apply resourceAccessOfRules_elem_of.
Qed.

Lemma GetResourceAccess_merges_matching_rules_witness :
  GetResourceAccess (Some (authorityWith [selfReview; viewBlueMetrics; viewRedMetrics] ""))
    (groupRes MetricsACLConfig) ["devcluster1"; "blah"] ""
  = ([], Ok (resourceAccessOfRules (groupRes MetricsACLConfig) ["devcluster1"; "blah"]
               [selfReview; viewBlueMetrics; viewRedMetrics])) ∧
  ∃ rules,
    makeSubjectRulesReviewForUser
      (Some (authorityWith [selfReview; viewBlueMetrics; viewRedMetrics] "")) ""
    = ([], Ok rules) ∧
    ∀ name v,
      v ∈ default [] (resourceAccessOfRules (groupRes MetricsACLConfig)
                        ["devcluster1"; "blah"]
                        [selfReview; viewBlueMetrics; viewRedMetrics] !! name) ↔
      ∃ rule, rule ∈ rules ∧ ruleMatches (groupRes MetricsACLConfig) rule
              ∧ ruleCovers ["devcluster1"; "blah"] rule name ∧ v ∈ Verbs rule.
Proof.
  split; [reflexivity|].
  destruct (GetResourceAccess_merges_matching_rules
              (Some (authorityWith [selfReview; viewBlueMetrics; viewRedMetrics] ""))
              (groupRes MetricsACLConfig) ["devcluster1"; "blah"] "" []
              (resourceAccessOfRules (groupRes MetricsACLConfig) ["devcluster1"; "blah"]
                 [selfReview; viewBlueMetrics; viewRedMetrics]) eq_refl)
    as (rules & Hrules & _ & _ & _ & Hverbs).
  exists rules. split; [exact Hrules | exact Hverbs].
Defined.

(** C2. A successful [GetResourceAccess] has an entry for every requested
    name; the entry of a name that no matching rule covers is the empty
    sequence. *)
Theorem GetResourceAccess_requested_names_present
    (kclient : option kubernetes.Interface) (gr : schema.GroupResource)
    (resourcenames : list string) (namespace : string)
    (log : list string) (results : gmap string (list string)) (name : string) :
  GetResourceAccess kclient gr resourcenames namespace = (log, Ok results) →
  name ∈ resourcenames →
  ∃ verbs, results !! name = Some verbs ∧
    ∀ rules, makeSubjectRulesReviewForUser kclient namespace = (log, Ok rules) →
             ¬ someRuleCovers gr resourcenames rules name → verbs = [].
Proof.
  intros (rules & Hrules & ->)%GetResourceAccess_Ok Hname.
  destruct (proj2 (resourceAccessOfRules_is_Some gr resourcenames rules name))
    as [verbs Hverbs]; [by right|].
  exists verbs. split; [done|]. intros rules' Hrules' Hnone.
  assert (rules' = rules) as -> by congruence.
  destruct verbs as [|v verbs]; [done|]. exfalso. apply Hnone.
  pose proof (resourceAccessOfRules_elem_of gr resourcenames rules name v) as He.
  rewrite Hverbs in He. simpl in He.
  destruct (proj1 He) as (rule & ? & ? & ? & _); [left|]. by exists rule.
Qed.

Lemma GetResourceAccess_requested_names_present_witness :
  GetResourceAccess (Some (authorityWith [selfReview; viewRedMetrics] ""))
    (groupRes MetricsACLConfig) ["blah"] ""
  = ([], Ok (resourceAccessOfRules (groupRes MetricsACLConfig) ["blah"]
               [selfReview; viewRedMetrics])) ∧
  "blah" ∈ ["blah"] ∧
  ∃ verbs,
    resourceAccessOfRules (groupRes MetricsACLConfig) ["blah"]
      [selfReview; viewRedMetrics] !! "blah" = Some verbs ∧
    ∀ rules,
      makeSubjectRulesReviewForUser (Some (authorityWith [selfReview; viewRedMetrics] "")) ""
      = ([], Ok rules) →
      ¬ someRuleCovers (groupRes MetricsACLConfig) ["blah"] rules "blah" → verbs = [].
Proof.
  split; [reflexivity|]. split; [left|].
  apply (GetResourceAccess_requested_names_present
           (Some (authorityWith [selfReview; viewRedMetrics] ""))
           (groupRes MetricsACLConfig) ["blah"] "" []); [reflexivity | left].
Defined.

(** C6, as the code has it.  The result of [GetResourceAccess] is a map to
    sequences, and the order of the rules decides the order of the verbs
    inside a sequence: with the blue rule before the red one the entry of
    [devcluster1] starts with the blue verbs, with the red rule first it
    starts with the red ones. *)
Lemma GetResourceAccess_rule_order_counterexample :
  [viewBlueMetrics; viewRedMetrics] ≡ₚ [viewRedMetrics; viewBlueMetrics] ∧
  GetResourceAccess (Some (authorityWith [viewBlueMetrics; viewRedMetrics] ""))
    (groupRes MetricsACLConfig) [] ""
  ≠ GetResourceAccess (Some (authorityWith [viewRedMetrics; viewBlueMetrics] ""))
      (groupRes MetricsACLConfig) [] "".
Proof.
  split; [apply perm_swap|].
  intros Heq.
  apply (f_equal (λ out : logged (gmap string (list string)),
                    match out.2 with Ok m => m !! "devcluster1" | _ => None end)) in Heq.
  vm_compute in Heq. discriminate.
Qed.

(** C6, amended.  When two authorities answer with the same rules in a
    different order, both calls of [GetResourceAccess] succeed, and their
    results have the same names, each with the same verbs and without
    duplicates; only the order of the verbs inside an entry may differ. *)
Theorem GetResourceAccess_rule_order_sameAccess
    (kclient kclient' : option kubernetes.Interface) (gr : schema.GroupResource)
    (resourcenames : list string) (namespace : string)
    (log log' : list string) (rules rules' : list ResourceRule) :
  makeSubjectRulesReviewForUser kclient namespace = (log, Ok rules) →
  makeSubjectRulesReviewForUser kclient' namespace = (log', Ok rules') →
  rules ≡ₚ rules' →
  ∃ results results',
    GetResourceAccess kclient gr resourcenames namespace = (log, Ok results) ∧
    GetResourceAccess kclient' gr resourcenames namespace = (log', Ok results') ∧
    sameAccess results results' ∧ dom results = dom results' ∧
    uniqueEntries results ∧ uniqueEntries results'.
Proof.
  intros Hr Hr' Hp.
  exists (resourceAccessOfRules gr resourcenames rules),
         (resourceAccessOfRules gr resourcenames rules').
  assert (∀ rule, rule ∈ rules ↔ rule ∈ rules') as Hin by (intros; by rewrite Hp).
  split_and!.
  - apply GetResourceAccess_Ok. eauto.
  - apply GetResourceAccess_Ok. eauto.
  - by apply resourceAccessOfRules_sameAccess.
  - apply set_eq. intros k. rewrite !elem_of_dom, !resourceAccessOfRules_is_Some.
    unfold someRuleCovers. split; (intros [(r & Hrule & ?)|?]; [left; exists r|by right]);
      (split; [by apply Hin | done]).
  - intros k l. apply resourceAccessOfRules_NoDup.
  - intros k l. apply resourceAccessOfRules_NoDup.
Qed.

Lemma GetResourceAccess_rule_order_sameAccess_witness :
  makeSubjectRulesReviewForUser (Some (authorityWith [viewBlueMetrics; viewRedMetrics] "")) ""
  = ([], Ok [viewBlueMetrics; viewRedMetrics]) ∧
  makeSubjectRulesReviewForUser (Some (authorityWith [viewRedMetrics; viewBlueMetrics] "")) ""
  = ([], Ok [viewRedMetrics; viewBlueMetrics]) ∧
  [viewBlueMetrics; viewRedMetrics] ≡ₚ [viewRedMetrics; viewBlueMetrics] ∧
  ∃ results results',
    GetResourceAccess (Some (authorityWith [viewBlueMetrics; viewRedMetrics] ""))
      (groupRes MetricsACLConfig) [] "" = ([], Ok results) ∧
    GetResourceAccess (Some (authorityWith [viewRedMetrics; viewBlueMetrics] ""))
      (groupRes MetricsACLConfig) [] "" = ([], Ok results') ∧
    sameAccess results results' ∧ dom results = dom results' ∧
    uniqueEntries results ∧ uniqueEntries results'.
Proof.
  split; [reflexivity|]. split; [reflexivity|]. split; [apply perm_swap|].
  apply (GetResourceAccess_rule_order_sameAccess
           (Some (authorityWith [viewBlueMetrics; viewRedMetrics] ""))
           (Some (authorityWith [viewRedMetrics; viewBlueMetrics] ""))
           (groupRes MetricsACLConfig) [] "" [] []
           [viewBlueMetrics; viewRedMetrics] [viewRedMetrics; viewBlueMetrics]);
    [reflexivity | reflexivity | apply perm_swap].
Defined.

(** ** What the decoding keeps *)

Lemma metricsAccessMapOf_nil : metricsAccessMapOf [] = ∅.
Proof. reflexivity. Qed.

Lemma decodesTo_lookup (clusters : list string)
    (resourceACLs metricsAccessResults : gmap string (list string))
    (c : string) (nss : list string) :
  decodesTo clusters resourceACLs metricsAccessResults →
  metricsAccessResults !! c = Some nss →
  is_Some (resourceACLs !! c) ∧
  nsWithMetricsAccessOf (default [] (resourceACLs !! c)) nss.
Proof.
  intros Hd Hc. specialize (Hd c).
  destruct (resourceACLs !! c) as [acls|]; [|congruence].
  case_decide; [|congruence].
  destruct Hd as (ns & Hns & Hlook). simpl. split; [eauto|congruence].
Qed.

Lemma decodesTo_is_Some (clusters : list string)
    (resourceACLs metricsAccessResults : gmap string (list string)) (c : string) :
  decodesTo clusters resourceACLs metricsAccessResults →
  (c ∈ clusters → is_Some (resourceACLs !! c)) →
  is_Some (metricsAccessResults !! c) ↔
  metricsAccessMapOf (default [] (resourceACLs !! c)) ≠ ∅ ∨ c ∈ clusters.
Proof.
  intros Hd Hreq. specialize (Hd c).
  destruct (resourceACLs !! c) as [acls|]; simpl.
  - case_decide as Hinc.
    + destruct Hd as (ns & _ & ->). split; [done | eauto].
    + rewrite Hd. split; [by intros ?%is_Some_None | done].
  - rewrite Hd, metricsAccessMapOf_nil. split; [by intros ?%is_Some_None|].
    intros [?|[]%Hreq%is_Some_None]. done.
Qed.

Lemma decodesTo_sameAccess (clusters : list string)
    (resourceACLs results results' : gmap string (list string)) :
  decodesTo clusters resourceACLs results →
  decodesTo clusters resourceACLs results' →
  sameAccess results results'.
Proof.
  intros Hd Hd' c. specialize (Hd c). specialize (Hd' c).
  destruct (resourceACLs !! c) as [acls|].
  - case_decide.
    + destruct Hd as (ns & Hns & ->), Hd' as (ns' & Hns' & ->).
      by eapply nsWithMetricsAccessOf_Permutation.
    + by rewrite Hd, Hd'.
  - by rewrite Hd, Hd'.
Qed.

Lemma decodesTo_uniqueEntries (clusters : list string)
    (resourceACLs results : gmap string (list string)) :
  decodesTo clusters resourceACLs results → uniqueEntries results.
Proof.
  intros Hd c l Hc. destruct (decodesTo_lookup _ _ _ _ _ Hd Hc) as [_ Hns].
  by eapply nsWithMetricsAccessOf_NoDup.
Qed.

Lemma metricsAccessMapOf_nonempty (clusteracls : list string) :
  metricsAccessMapOf clusteracls ≠ ∅ ↔
  ∃ acl ns, acl ∈ clusteracls ∧ verbGrants acl ns.
Proof.
  split.
  - intros (ns & b & Hb)%map_choose.
    destruct (proj1 (metricsAccessMapOf_is_Some clusteracls ns) (mk_is_Some _ _ Hb))
      as (acl & Hacl & Hg).
    eauto.
  - intros (acl & ns & Hacl & Hg) Hempty.
    assert (is_Some (metricsAccessMapOf clusteracls !! ns)) as Hs
      by (apply metricsAccessMapOf_is_Some; eauto).
    rewrite Hempty, lookup_empty in Hs. by apply is_Some_None in Hs.
Qed.

Lemma verbGrants_prefix (acl ns : string) :
  verbGrants acl ns ↔
  (strings.HasPrefix acl "metrics/" = true ∧ ns = strings.TrimPrefix acl "metrics/") ∨
  (acl = "*" ∧ ns = "*").
Proof.
  unfold verbGrants. change (verb MetricsACLConfig) with "metrics/". split.
  - intros [->|?]; [left | by right].
    rewrite TrimPrefix_app. split; [apply HasPrefix_app; eauto | done].
  - intros [[[rest ->]%HasPrefix_app ->]|?]; [left | by right].
    by rewrite TrimPrefix_app.
Qed.

Section metrics_claims.
Context `{kubernetes.ClientSet}.

(** C3. After a successful [GetMetricsAccess] the result has an entry for
    a cluster exactly when some verb of that cluster grants a namespace (it
    starts with ["metrics/"] or is ["*"]), that is when the namespace set
    decoded from the cluster's verbs is not empty, or the cluster is one of
    the requested ones; the value of an entry lists exactly the namespaces
    the cluster's verbs grant, so it may be empty for a requested cluster; a
    cluster that is not requested and whose verbs grant no namespace is
    absent. *)
Theorem GetMetricsAccess_cluster_present_iff
    (r : AccessReviewer) (userToken : string) (clusters : list string)
    (log : list string) (metricsAccessResults : gmap string (list string)) :
  GetMetricsAccess r userToken clusters (log, Ok metricsAccessResults) →
  ∃ userKClient resourceACLs,
    getKubeClientForUser r userToken = Ok userKClient ∧
    GetResourceAccess userKClient (groupRes MetricsACLConfig) clusters ""
      = (log, Ok resourceACLs) ∧
    ∀ c,
      (is_Some (metricsAccessResults !! c) ↔
       (∃ acl ns, acl ∈ default [] (resourceACLs !! c) ∧
                  ((strings.HasPrefix acl "metrics/" = true ∧
                    ns = strings.TrimPrefix acl "metrics/") ∨
                   (acl = "*" ∧ ns = "*"))) ∨
       c ∈ clusters) ∧
      (is_Some (metricsAccessResults !! c) ↔
       metricsAccessMapOf (default [] (resourceACLs !! c)) ≠ ∅ ∨ c ∈ clusters) ∧
      (∀ nss, metricsAccessResults !! c = Some nss →
              nsWithMetricsAccessOf (default [] (resourceACLs !! c)) nss ∧
              ∀ ns, ns ∈ nss ↔
                    ∃ acl, acl ∈ default [] (resourceACLs !! c) ∧ verbGrants acl ns) ∧
      (c ∉ clusters →
       (∀ v ns, v ∈ default [] (resourceACLs !! c) → ¬ verbGrants v ns) →
       metricsAccessResults !! c = None).
Proof.
  intros (kc & acls & Hkc & Hacls & Hd)%GetMetricsAccess_Ok.
  exists kc, acls. split_and!; [done..|]. intros c.
  assert (c ∈ clusters → is_Some (acls !! c)) as Hreq.
  { intros Hc. apply GetResourceAccess_Ok in Hacls as (rules & _ & ->).
    apply resourceAccessOfRules_is_Some. by right. }
  pose proof (decodesTo_is_Some _ _ _ c Hd Hreq) as Hiff.
  split_and!; [|done| |].
  - rewrite Hiff, metricsAccessMapOf_nonempty.
    split; (intros [(acl & ns & Hacl & Hg)|?]; [left; exists acl, ns; split; [done|]
                                               | by right]);
      by apply verbGrants_prefix.
  - intros nss Hnss. destruct (decodesTo_lookup _ _ _ _ _ Hd Hnss) as [_ Hns].
    split; [done|]. intros ns. by apply nsWithMetricsAccessOf_elem_of.
  - intros Hnot Hnone. apply eq_None_not_Some. rewrite Hiff.
    intros [Hne|?]; [|done]. apply metricsAccessMapOf_nonempty in Hne
      as (acl & ns & Hacl & Hg). by eapply Hnone.
Qed.

(** C4. The decoding of a verb list yields exactly: for a verb that starts
    with ["metrics/"], what follows the prefix; for the verb ["*"], the
    sentinel ["*"]; for any other verb, nothing.  This holds of the
    namespace set, of every sequence listing it, and of every value of a
    successful [GetMetricsAccess]. *)
Theorem metrics_decoding_exact :
  (∀ acl ns,
     verbGrants acl ns ↔
     (strings.HasPrefix acl "metrics/" = true ∧ ns = strings.TrimPrefix acl "metrics/") ∨
     (acl = "*" ∧ ns = "*")) ∧
  (∀ clusteracls ns,
     is_Some (metricsAccessMapOf clusteracls !! ns) ↔
     ∃ acl, acl ∈ clusteracls ∧ verbGrants acl ns) ∧
  (∀ clusteracls nss,
     nsWithMetricsAccessOf clusteracls nss →
     ∀ ns, ns ∈ nss ↔ ∃ acl, acl ∈ clusteracls ∧ verbGrants acl ns) ∧
  (∀ r userToken clusters log metricsAccessResults,
     GetMetricsAccess r userToken clusters (log, Ok metricsAccessResults) →
     ∃ userKClient resourceACLs,
       getKubeClientForUser r userToken = Ok userKClient ∧
       GetResourceAccess userKClient (groupRes MetricsACLConfig) clusters ""
         = (log, Ok resourceACLs) ∧
       ∀ c nss, metricsAccessResults !! c = Some nss →
         ∀ ns, ns ∈ nss ↔
               ∃ acl, acl ∈ default [] (resourceACLs !! c) ∧ verbGrants acl ns) ∧
  metricsAccessMapOf ["metrics/ns1"] = {["ns1" := true]} ∧
  metricsAccessMapOf ["*"] = {["*" := true]} ∧
  metricsAccessMapOf ["list"] = ∅.
Proof.
  split_and!.
  - apply verbGrants_prefix.
  - apply metricsAccessMapOf_is_Some.
  - intros acls nss Hns ns. by apply nsWithMetricsAccessOf_elem_of.
  - intros r userToken clusters log res (kc & acls & Hkc & Hacls & Hd)%GetMetricsAccess_Ok.
    exists kc, acls. split_and!; [done..|]. intros c nss Hc ns.
    destruct (decodesTo_lookup _ _ _ _ _ Hd Hc) as [_ Hns].
    by apply nsWithMetricsAccessOf_elem_of.
  - reflexivity.
  - reflexivity.
  - reflexivity.
Qed.

(** C7, amended.  Two evaluations of [GetMetricsAccess] on the same input
    write the same log and end the same way; when they succeed, their
    results have the same clusters, and for each cluster sequences without
    duplicates that hold the same namespaces.  The order inside a sequence
    is that of a Go map range: it is not fixed by the input. *)
Theorem GetMetricsAccess_same_up_to_order
    (r : AccessReviewer) (userToken : string) (clusters : list string)
    (out out' : logged (gmap string (list string))) :
  GetMetricsAccess r userToken clusters out →
  GetMetricsAccess r userToken clusters out' →
  out.1 = out'.1 ∧
  match out.2, out'.2 with
  | Ok results, Ok results' =>
      sameAccess results results' ∧ dom results = dom results' ∧
      uniqueEntries results ∧ uniqueEntries results'
  | Err err, Err err' => err = err'
  | Panic, Panic => True
  | _, _ => False
  end.
Proof.
  intros Hout Hout'.
  destruct out as [l [res|e|]], out' as [l' [res'|e'|]]; simpl.
  1:{ apply GetMetricsAccess_Ok in Hout as (kc & acls & Hkc & Hacls & Hd).
      apply GetMetricsAccess_Ok in Hout' as (kc' & acls' & Hkc' & Hacls' & Hd').
      assert (kc' = kc) as -> by congruence.
      assert (l' = l ∧ acls' = acls) as [-> ->] by (split; congruence).
      pose proof (decodesTo_sameAccess _ _ _ _ Hd Hd') as Hsame.
      split_and!; [done | done | | by eapply decodesTo_uniqueEntries..].
      apply set_eq. intros c. rewrite !elem_of_dom. specialize (Hsame c).
      destruct (res !! c), (res' !! c); try done;
        split; intros Hs; eauto; by apply is_Some_None in Hs. }
  all: revert Hout Hout'; unfold GetMetricsAccess;
    destruct (getKubeClientForUser r userToken) as [kc|ek|];
    [destruct (GetResourceAccess kc _ clusters "") as [la [acls|ea|]]|..];
    try (intros (? & ? & _ & _ & ?)); try (intros (? & ? & _ & _ & ?));
    intros; simplify_eq; done.
Qed.

(** C10. When names are requested, the names of the result of a successful
    [GetResourceAccess] are exactly the requested ones: no entry for a
    name of a rule that was not asked about, and none for ["*"] unless the
    caller asked about that very name.  When clusters are requested, the
    clusters of the result of a successful [GetMetricsAccess] are exactly
    the requested ones. *)
Theorem requested_names_are_the_keys :
  (∀ kclient gr resourcenames namespace log results,
     resourcenames ≠ [] →
     GetResourceAccess kclient gr resourcenames namespace = (log, Ok results) →
     dom results = list_to_set resourcenames ∧
     (∀ name, name ∉ resourcenames → results !! name = None) ∧
     ("*" ∉ resourcenames → results !! "*" = None)) ∧
  (∀ r userToken clusters log metricsAccessResults,
     clusters ≠ [] →
     GetMetricsAccess r userToken clusters (log, Ok metricsAccessResults) →
     dom metricsAccessResults = list_to_set clusters).
Proof.
  assert (∀ kclient gr (resourcenames : list string) namespace log
            (results : gmap string (list string)),
            resourcenames ≠ [] →
            GetResourceAccess kclient gr resourcenames namespace = (log, Ok results) →
            dom results = list_to_set resourcenames) as Hdom.
  { intros kclient gr names ns log results Hne (rules & _ & ->)%GetResourceAccess_Ok.
    by apply resourceAccessOfRules_dom. }
  split.
  - intros kclient gr names ns log results Hne Hcall.
    pose proof (Hdom _ _ _ _ _ _ Hne Hcall) as Hd.
    assert (∀ name, name ∉ names → results !! name = None) as Hout.
    { intros name Hname. apply not_elem_of_dom. rewrite Hd.
      by rewrite elem_of_list_to_set. }
    split_and!; [done | done | apply Hout].
  - intros r userToken clusters log res Hne
      (kc & acls & Hkc & Hacls & Hd)%GetMetricsAccess_Ok.
    pose proof (Hdom _ _ _ _ _ _ Hne Hacls) as Hdacls.
    apply set_eq. intros c. rewrite elem_of_dom, elem_of_list_to_set.
    assert (c ∈ clusters ↔ is_Some (acls !! c)) as Hreq.
    { by rewrite <-elem_of_dom, Hdacls, elem_of_list_to_set. }
    rewrite (decodesTo_is_Some _ _ _ c Hd (proj1 Hreq)).
    split; [|by right]. intros [Hm|?]; [|done]. apply Hreq.
    destruct (acls !! c); [eauto|]. simpl in Hm. by rewrite metricsAccessMapOf_nil in Hm.
Qed.
End metrics_claims.

Lemma GetMetricsAccess_cluster_present_iff_witness :
  GetMetricsAccess (H := purpleClientSet) redReviewer "" ["blah"]
    ([], Ok (decodeInOrder id ["blah"]
               (map_to_list (resourceAccessOfRules (groupRes MetricsACLConfig) ["blah"]
                               [selfReview; viewRedMetrics])))) ∧
  GetMetricsAccess (H := purpleClientSet) redReviewer "" []
    ([], Ok (decodeInOrder id []
               (map_to_list (resourceAccessOfRules (groupRes MetricsACLConfig) []
                               [selfReview; viewRedMetrics])))) ∧
  is_Some (decodeInOrder id ["blah"]
             (map_to_list (resourceAccessOfRules (groupRes MetricsACLConfig) ["blah"]
                             [selfReview; viewRedMetrics])) !! "blah") ∧
  is_Some (decodeInOrder id []
             (map_to_list (resourceAccessOfRules (groupRes MetricsACLConfig) []
                             [selfReview; viewRedMetrics])) !! "devcluster1") ∧
  decodeInOrder id []
    (map_to_list (resourceAccessOfRules (groupRes MetricsACLConfig) []
                    [selfReview; viewRedMetrics])) !! "blah" = None.
Proof.
  assert (GetMetricsAccess (H := purpleClientSet) redReviewer "" ["blah"]
            ([], Ok (decodeInOrder id ["blah"]
                       (map_to_list (resourceAccessOfRules (groupRes MetricsACLConfig)
                                       ["blah"] [selfReview; viewRedMetrics]))))) as Hrun
    by exact (GetMetricsAccessInOrder_run (H := purpleClientSet) id
                redReviewer "" ["blah"] (λ l, reflexivity l)).
  assert (GetMetricsAccess (H := purpleClientSet) redReviewer "" []
            ([], Ok (decodeInOrder id []
                       (map_to_list (resourceAccessOfRules (groupRes MetricsACLConfig)
                                       [] [selfReview; viewRedMetrics]))))) as Hall
    by exact (GetMetricsAccessInOrder_run (H := purpleClientSet) id
                redReviewer "" [] (λ l, reflexivity l)).
  split; [exact Hrun|]. split; [exact Hall|].
  destruct (GetMetricsAccess_cluster_present_iff (H := purpleClientSet)
              redReviewer "" ["blah"] [] _ Hrun) as (kc & acls & Hkc & Hacls & Hblah).
  destruct (GetMetricsAccess_cluster_present_iff (H := purpleClientSet)
              redReviewer "" [] [] _ Hall) as (kc' & acls' & Hkc' & Hacls' & Hdev).
  injection Hkc as <-. injection Hkc' as <-.
  assert (([], Ok (resourceAccessOfRules (groupRes MetricsACLConfig) ["blah"]
                     [selfReview; viewRedMetrics]))
          = (([], Ok acls) : logged (gmap string (list string)))) as Heq by exact Hacls.
  assert (([], Ok (resourceAccessOfRules (groupRes MetricsACLConfig) []
                     [selfReview; viewRedMetrics]))
          = (([], Ok acls') : logged (gmap string (list string)))) as Heq' by exact Hacls'.
  injection Heq as <-. injection Heq' as <-.
  split_and!.
  - apply (proj1 (Hblah "blah")). right. left.
  - apply (proj1 (Hdev "devcluster1")). left.
    exists "metrics/nsred1", "nsred1". split; [|left; split; reflexivity].
    assert (∀ l : list string,
              l = ["metrics/nsred1"; "metrics/nsred2"] → "metrics/nsred1" ∈ l) as Hin
      by (intros l ->; left).
    apply Hin. vm_compute. reflexivity.
  - apply (proj2 (proj2 (proj2 (Hdev "blah")))); [apply not_elem_of_nil|].
    intros v ns Hv. exfalso. revert Hv.
    assert (∀ l : list string, l = [] → v ∈ l → False) as Hnil
      by (intros l -> []%elem_of_nil).
    apply Hnil. vm_compute. reflexivity.
Defined.

Lemma metrics_decoding_exact_witness :
  nsWithMetricsAccessOf ["metrics/ns1"; "list"; "*"; "metrics/ns1"]
    (map_to_list (metricsAccessMapOf ["metrics/ns1"; "list"; "*"; "metrics/ns1"])).*1 ∧
  ∀ ns,
    ns ∈ (map_to_list (metricsAccessMapOf ["metrics/ns1"; "list"; "*"; "metrics/ns1"])).*1 ↔
    ∃ acl, acl ∈ ["metrics/ns1"; "list"; "*"; "metrics/ns1"] ∧ verbGrants acl ns.
Proof.
  assert (nsWithMetricsAccessOf ["metrics/ns1"; "list"; "*"; "metrics/ns1"]
            (map_to_list (metricsAccessMapOf ["metrics/ns1"; "list"; "*"; "metrics/ns1"])).*1)
    as Hns by (apply (nsWithMetricsAccessOf_order id); intros l; reflexivity).
  split; [exact Hns|].
  destruct (metrics_decoding_exact (H := purpleClientSet)) as (_ & _ & Hlist & _).
  exact (Hlist _ _ Hns).
Defined.

(** C7, as the code has it.  [nsWithMetricsAccess] is filled by a range over
    a Go map, whose order the language leaves open: for [user-red] one
    evaluation may list [nsred1] before [nsred2] and the next one [nsred2]
    before [nsred1], although [metrics/nsred1] comes first among the verbs. *)
Lemma GetMetricsAccess_order_counterexample :
  ∃ results results',
    GetMetricsAccess (H := purpleClientSet) redReviewer "" [] ([], Ok results) ∧
    GetMetricsAccess (H := purpleClientSet) redReviewer "" [] ([], Ok results') ∧
    results !! "devcluster1" = Some ["nsred1"; "nsred2"] ∧
    results' !! "devcluster1" = Some ["nsred2"; "nsred1"] ∧
    results ≠ results'.
Proof.
  pose (ACLs := map_to_list (resourceAccessOfRules (groupRes MetricsACLConfig) []
                               [selfReview; viewRedMetrics])).
  assert (GetMetricsAccess (H := purpleClientSet) redReviewer "" []
            ([], Ok (decodeInOrder id [] ACLs))) as Hrun
    by exact (GetMetricsAccessInOrder_run (H := purpleClientSet) id
                redReviewer "" [] (λ l, reflexivity l)).
  assert (GetMetricsAccess (H := purpleClientSet) redReviewer "" []
            ([], Ok (decodeInOrder reverse [] ACLs))) as Hrun'
    by exact (GetMetricsAccessInOrder_run (H := purpleClientSet) reverse
                redReviewer "" [] reverse_Permutation).
  assert (decodeInOrder id [] ACLs !! "devcluster1" = Some ["nsred1"; "nsred2"]) as Hl
    by (vm_compute; reflexivity).
  assert (decodeInOrder reverse [] ACLs !! "devcluster1" = Some ["nsred2"; "nsred1"]) as Hl'
    by (vm_compute; reflexivity).
  revert Hrun Hrun' Hl Hl'.
  generalize (decodeInOrder id [] ACLs), (decodeInOrder reverse [] ACLs).
  intros results results' Hrun Hrun' Hl Hl'.
  exists results, results'.
  split; [exact Hrun|]. split; [exact Hrun'|]. split; [exact Hl|]. split; [exact Hl'|].
  intros Heq. subst results'. congruence.
Qed.

Lemma GetMetricsAccess_same_up_to_order_witness :
  GetMetricsAccess (H := purpleClientSet) redReviewer "" ["devcluster1"; "blah"]
    (GetMetricsAccessInOrder (H := purpleClientSet) id
       redReviewer "" ["devcluster1"; "blah"]) ∧
  GetMetricsAccess (H := purpleClientSet) redReviewer "" ["devcluster1"; "blah"]
    (GetMetricsAccessInOrder (H := purpleClientSet) reverse
       redReviewer "" ["devcluster1"; "blah"]) ∧
  (GetMetricsAccessInOrder (H := purpleClientSet) id
       redReviewer "" ["devcluster1"; "blah"]).1
  = (GetMetricsAccessInOrder (H := purpleClientSet) reverse
       redReviewer "" ["devcluster1"; "blah"]).1 ∧
  match (GetMetricsAccessInOrder (H := purpleClientSet) id
       redReviewer "" ["devcluster1"; "blah"]).2,
        (GetMetricsAccessInOrder (H := purpleClientSet) reverse
       redReviewer "" ["devcluster1"; "blah"]).2
  with
  | Ok results, Ok results' =>
      sameAccess results results' ∧ dom results = dom results' ∧
      uniqueEntries results ∧ uniqueEntries results'
  | Err err, Err err' => err = err'
  | Panic, Panic => True
  | _, _ => False
  end.
Proof.
  assert (GetMetricsAccess (H := purpleClientSet) redReviewer "" ["devcluster1"; "blah"]
            (GetMetricsAccessInOrder (H := purpleClientSet) id
       redReviewer "" ["devcluster1"; "blah"])) as Hrun
    by exact (GetMetricsAccessInOrder_run (H := purpleClientSet) id
                redReviewer "" ["devcluster1"; "blah"] (λ l, reflexivity l)).
  assert (GetMetricsAccess (H := purpleClientSet) redReviewer "" ["devcluster1"; "blah"]
            (GetMetricsAccessInOrder (H := purpleClientSet) reverse
       redReviewer "" ["devcluster1"; "blah"])) as Hrun'
    by exact (GetMetricsAccessInOrder_run (H := purpleClientSet) reverse
                redReviewer "" ["devcluster1"; "blah"] reverse_Permutation).
  split; [exact Hrun|]. split; [exact Hrun'|].
  exact (GetMetricsAccess_same_up_to_order (H := purpleClientSet)
           redReviewer "" ["devcluster1"; "blah"] _ _ Hrun Hrun').
Defined.

Lemma requested_names_are_the_keys_witness :
  ["devcluster1"; "blah"] ≠ [] ∧
  GetResourceAccess (Some (authorityWith [selfReview; viewRedMetrics; viewSystemMetrics] ""))
    (groupRes MetricsACLConfig) ["devcluster1"; "blah"] ""
  = ([], Ok (resourceAccessOfRules (groupRes MetricsACLConfig) ["devcluster1"; "blah"]
               [selfReview; viewRedMetrics; viewSystemMetrics])) ∧
  GetMetricsAccess (H := purpleClientSet) clusterListerReviewer "" ["devcluster1"]
    ([], Ok {["devcluster1" := []]}) ∧
  dom (resourceAccessOfRules (groupRes MetricsACLConfig) ["devcluster1"; "blah"]
         [selfReview; viewRedMetrics; viewSystemMetrics])
  = list_to_set ["devcluster1"; "blah"] ∧
  dom ({["devcluster1" := []]} : gmap string (list string)) = list_to_set ["devcluster1"].
Proof.
  assert (GetMetricsAccess (H := purpleClientSet) clusterListerReviewer "" ["devcluster1"]
            ([], Ok {["devcluster1" := []]})) as Hrun.
  { pose proof (GetMetricsAccessInOrder_run (H := purpleClientSet) id
                  clusterListerReviewer "" ["devcluster1"] (λ l, reflexivity l)) as Hrun.
    assert (GetMetricsAccessInOrder (H := purpleClientSet) id
              clusterListerReviewer "" ["devcluster1"]
            = ([], Ok {["devcluster1" := []]})) as Heq by (vm_compute; reflexivity).
    by rewrite Heq in Hrun. }
  destruct (requested_names_are_the_keys (H := purpleClientSet)) as [Hres Hmet].
  split_and!; [done | reflexivity | exact Hrun | |].
  - apply (Hres (Some (authorityWith [selfReview; viewRedMetrics; viewSystemMetrics] ""))
             (groupRes MetricsACLConfig) ["devcluster1"; "blah"] "" []);
      [done | reflexivity].
  - apply (Hmet clusterListerReviewer "" ["devcluster1"] []); [done | exact Hrun].
Defined.


(** * Further properties of the package *)

(** ** Which client a reviewer uses *)

Lemma getKubeClientForUser_config `{kubernetes.ClientSet}
    (r : AccessReviewer) (cfg : rest.Config) (userToken : string) :
  kubeConfig r = Some cfg →
  getKubeClientForUser r userToken =
    if String.eqb userToken "" then Err missingTokenError
    else match kubernetes.NewForConfig (userKubeConfigFor cfg userToken) with
         | Ok kclient => Ok (Some kclient)
         | Err err => Err err
         | Panic => Panic
         end.
Proof.
  intros Hcfg. unfold getKubeClientForUser. rewrite Hcfg.
  by destruct (String.eqb userToken "").
Qed.

(** Two reviewers with the same client for a call have the same runs. *)
Lemma GetMetricsAccess_same_client
    (H H' : kubernetes.ClientSet) (r r' : AccessReviewer) (userToken userToken' : string)
    (clusters : list string) (out : logged (gmap string (list string))) :
  getKubeClientForUser (H := H) r userToken = getKubeClientForUser (H := H') r' userToken' →
  GetMetricsAccess (H := H) r userToken clusters out ↔
  GetMetricsAccess (H := H') r' userToken' clusters out.
Proof. intros Heq. unfold GetMetricsAccess. by rewrite Heq. Qed.

(** X1. A reviewer that holds a configuration needs a token: without one
    [GetMetricsAccess] returns, and what it returns on every run is the
    usage error, whatever client-go and the authority would have answered
    and whatever client the reviewer holds beside the configuration. *)
Theorem GetMetricsAccess_config_needs_token
    (H : kubernetes.ClientSet) (r : AccessReviewer) (cfg : rest.Config)
    (clusters : list string) :
  kubeConfig r = Some cfg →
  (∃ out, GetMetricsAccess (H := H) r "" clusters out) ∧
  (∀ out, GetMetricsAccess (H := H) r "" clusters out → out.2 = Err missingTokenError).
Proof.
  intros Hcfg. split; [apply GetMetricsAccess_total|].
  intros out. unfold GetMetricsAccess.
  rewrite (getKubeClientForUser_config r cfg "" Hcfg). by intros ->.
Qed.

Lemma GetMetricsAccess_config_needs_token_witness :
  kubeConfig {| kubeConfig := Some baseK8sConfig; kubeClient := None |} = Some baseK8sConfig ∧
  (∃ out, GetMetricsAccess (H := purpleClientSet)
            {| kubeConfig := Some baseK8sConfig; kubeClient := None |} "" ["devcluster1"] out) ∧
  (∀ out, GetMetricsAccess (H := purpleClientSet)
            {| kubeConfig := Some baseK8sConfig; kubeClient := None |} "" ["devcluster1"] out →
          out.2 = Err missingTokenError).
Proof.
  split; [reflexivity|].
  apply (GetMetricsAccess_config_needs_token purpleClientSet
           {| kubeConfig := Some baseK8sConfig; kubeClient := None |} baseK8sConfig
           ["devcluster1"]).
  reflexivity.
Defined.

(** X2. With a token, a reviewer that holds a configuration asks client-go
    for a client of a configuration that carries the caller's token, no
    token file, and the host, API path and TLS settings of its own: the
    credentials stored in the reviewer's configuration are never used, so
    two configurations that differ only in them serve the caller alike. *)
Theorem getKubeClientForUser_uses_the_callers_token
    (H : kubernetes.ClientSet) (cfg cfg' : rest.Config) (kclient kclient' : option kubernetes.Interface)
    (userToken : string) :
  userToken ≠ "" →
  rest.Host cfg = rest.Host cfg' →
  rest.APIPath cfg = rest.APIPath cfg' →
  rest.TLS cfg = rest.TLS cfg' →
  rest.BearerToken (userKubeConfigFor cfg userToken) = userToken ∧
  rest.BearerTokenFile (userKubeConfigFor cfg userToken) = "" ∧
  getKubeClientForUser (H := H) {| kubeConfig := Some cfg; kubeClient := kclient |} userToken
  = match kubernetes.NewForConfig (userKubeConfigFor cfg userToken) with
    | Ok c => Ok (Some c)
    | Err err => Err err
    | Panic => Panic
    end ∧
  getKubeClientForUser (H := H) {| kubeConfig := Some cfg; kubeClient := kclient |} userToken
  = getKubeClientForUser (H := H) {| kubeConfig := Some cfg'; kubeClient := kclient' |} userToken.
Proof.
  intros Htok Hhost Hpath Htls.
  assert (String.eqb userToken "" = false) as Hne by (by apply String.eqb_neq).
  assert (userKubeConfigFor cfg userToken = userKubeConfigFor cfg' userToken) as Hcfg.
  { unfold userKubeConfigFor. by rewrite Hhost, Hpath, Htls. }
  split_and!; [done | done | |].
  - rewrite (getKubeClientForUser_config
               {| kubeConfig := Some cfg; kubeClient := kclient |} cfg userToken eq_refl).
    by rewrite Hne.
  - rewrite (getKubeClientForUser_config
               {| kubeConfig := Some cfg; kubeClient := kclient |} cfg userToken eq_refl).
    rewrite (getKubeClientForUser_config
               {| kubeConfig := Some cfg'; kubeClient := kclient' |} cfg' userToken eq_refl).
    by rewrite Hne, Hcfg.
Qed.

Lemma getKubeClientForUser_uses_the_callers_token_witness :
  "sha256~token" ≠ "" ∧
  getKubeClientForUser (H := purpleClientSet)
    {| kubeConfig := Some baseK8sConfig; kubeClient := None |} "sha256~token"
  = getKubeClientForUser (H := purpleClientSet)
      {| kubeConfig :=
           Some {| rest.Host := rest.Host baseK8sConfig;
                   rest.APIPath := rest.APIPath baseK8sConfig;
                   rest.BearerToken := "the token of the service account";
                   rest.BearerTokenFile := "/var/run/secrets/token";
                   rest.TLS := rest.TLS baseK8sConfig |};
         kubeClient := None |} "sha256~token".
Proof.
  split; [discriminate|].
  apply (getKubeClientForUser_uses_the_callers_token purpleClientSet baseK8sConfig
           {| rest.Host := rest.Host baseK8sConfig;
              rest.APIPath := rest.APIPath baseK8sConfig;
              rest.BearerToken := "the token of the service account";
              rest.BearerTokenFile := "/var/run/secrets/token";
              rest.TLS := rest.TLS baseK8sConfig |} None None "sha256~token");
    [discriminate | reflexivity..].
Defined.

(** X3. A reviewer that holds a client and no configuration uses that
    client whatever token the caller passes: the token changes neither the
    client nor any run of [GetMetricsAccess]. *)
Theorem GetMetricsAccess_client_ignores_token
    (H : kubernetes.ClientSet) (r : AccessReviewer) (userToken userToken' : string)
    (clusters : list string) (out : logged (gmap string (list string))) :
  kubeConfig r = None →
  getKubeClientForUser (H := H) r userToken = Ok (kubeClient r) ∧
  (GetMetricsAccess (H := H) r userToken clusters out ↔
   GetMetricsAccess (H := H) r userToken' clusters out).
Proof.
  intros Hcfg.
  assert (∀ tok, getKubeClientForUser (H := H) r tok = Ok (kubeClient r)) as Hc.
  { intros tok. unfold getKubeClientForUser. by rewrite Hcfg. }
  split; [apply Hc|]. apply GetMetricsAccess_same_client. by rewrite !Hc.
Qed.

Lemma GetMetricsAccess_client_ignores_token_witness :
  kubeConfig redReviewer = None ∧
  getKubeClientForUser (H := purpleClientSet) redReviewer "any token"
  = Ok (kubeClient redReviewer).
Proof.
  split; [reflexivity|].
  apply (GetMetricsAccess_client_ignores_token purpleClientSet redReviewer
           "any token" "" [] ([], Panic)).
  reflexivity.
Defined.



(** ** Errors and partial answers of the authority *)

Lemma GetResourceAccess_call (c : kubernetes.Interface) (gr : schema.GroupResource)
    (resourcenames : list string) (namespace : string) :
  GetResourceAccess (Some c) gr resourcenames namespace =
    match kubernetes.SelfSubjectRulesReviews_Create c (rulesReviewRequest namespace) with
    | Ok response =>
        (if String.eqb (EvaluationError (Status response)) "" then []
         else [evaluationErrorLine (rulesReviewRequest namespace) response],
         Ok (resourceAccessOfRules gr resourcenames (ResourceRules (Status response))))
    | Err err => ([], Err err)
    | Panic => ([], Panic)
    end.
Proof.
  unfold GetResourceAccess, makeSubjectRulesReviewForUser.
  destruct (kubernetes.SelfSubjectRulesReviews_Create c _) as [response|e|]; [|done..].
  by destruct (String.eqb (EvaluationError (Status response)) "").
Qed.

(** X5. On a client, [GetResourceAccess] returns an error exactly when the
    rule-listing call does, and the error is the call's own. *)
Theorem GetResourceAccess_fails_iff_call_fails
    (c : kubernetes.Interface) (gr : schema.GroupResource)
    (resourcenames : list string) (namespace : string) (err : error) :
  (GetResourceAccess (Some c) gr resourcenames namespace).2 = Err err ↔
  kubernetes.SelfSubjectRulesReviews_Create c (rulesReviewRequest namespace) = Err err.
Proof.
  rewrite GetResourceAccess_call.
  destruct (kubernetes.SelfSubjectRulesReviews_Create c _) as [response|e|]; simpl.
  - split; intros [=].
  - split; intros [= ->]; done.
  - split; intros [=].
Qed.

(** X6. When the rule-listing call fails, [GetMetricsAccess] returns, and
    what it returns on every run is that very error: no cluster is
    reported. *)
Theorem GetMetricsAccess_propagates_call_error
    (H : kubernetes.ClientSet) (r : AccessReviewer) (userToken : string)
    (clusters : list string) (c : kubernetes.Interface) (err : error) :
  getKubeClientForUser (H := H) r userToken = Ok (Some c) →
  kubernetes.SelfSubjectRulesReviews_Create c (rulesReviewRequest "") = Err err →
  (∃ out, GetMetricsAccess (H := H) r userToken clusters out) ∧
  (∀ out, GetMetricsAccess (H := H) r userToken clusters out → out.2 = Err err).
Proof.
  intros Hc Hcall. split; [apply GetMetricsAccess_total|].
  intros out. unfold GetMetricsAccess.
  rewrite Hc, GetResourceAccess_call, Hcall. by intros ->.
Qed.

Lemma GetMetricsAccess_propagates_call_error_witness :
  getKubeClientForUser (H := purpleClientSet)
    {| kubeConfig := None; kubeClient := Some (failingAuthority (errors_New "Unauthorized")) |} ""
  = Ok (Some (failingAuthority (errors_New "Unauthorized"))) ∧
  kubernetes.SelfSubjectRulesReviews_Create
    (failingAuthority (errors_New "Unauthorized")) (rulesReviewRequest "")
  = Err (errors_New "Unauthorized") ∧
  (∃ out, GetMetricsAccess (H := purpleClientSet)
            {| kubeConfig := None;
               kubeClient := Some (failingAuthority (errors_New "Unauthorized")) |}
            "" ["devcluster1"] out) ∧
  (∀ out, GetMetricsAccess (H := purpleClientSet)
            {| kubeConfig := None;
               kubeClient := Some (failingAuthority (errors_New "Unauthorized")) |}
            "" ["devcluster1"] out →
          out.2 = Err (errors_New "Unauthorized")).
Proof.
  split; [reflexivity|]. split; [reflexivity|].
  apply (GetMetricsAccess_propagates_call_error purpleClientSet
           {| kubeConfig := None;
              kubeClient := Some (failingAuthority (errors_New "Unauthorized")) |}
           "" ["devcluster1"] (failingAuthority (errors_New "Unauthorized"))
           (errors_New "Unauthorized") eq_refl eq_refl).
Defined.

(** X7. When the rule-listing call answers, [GetResourceAccess] succeeds,
    whatever the answer says about its own completeness: what it returns is
    computed from the rules of the answer alone. *)
Theorem GetResourceAccess_uses_partial_results
    (c : kubernetes.Interface) (gr : schema.GroupResource)
    (resourcenames : list string) (namespace : string) (response : SelfSubjectRulesReview) :
  kubernetes.SelfSubjectRulesReviews_Create c (rulesReviewRequest namespace) = Ok response →
  (GetResourceAccess (Some c) gr resourcenames namespace).2 =
    Ok (resourceAccessOfRules gr resourcenames (ResourceRules (Status response))).
Proof. intros Hcall. by rewrite GetResourceAccess_call, Hcall. Qed.

Lemma GetResourceAccess_uses_partial_results_witness :
  kubernetes.SelfSubjectRulesReviews_Create
    (authorityWith [selfReview; viewRedMetrics] "webhook timed out") (rulesReviewRequest "")
  = Ok {| Spec := Spec (rulesReviewRequest "");
          Status := {| ResourceRules := [selfReview; viewRedMetrics]; Incomplete := false;
                       EvaluationError := "webhook timed out" |} |} ∧
  (GetResourceAccess (Some (authorityWith [selfReview; viewRedMetrics] "webhook timed out"))
     (groupRes MetricsACLConfig) ["devcluster1"] "").2
  = Ok (resourceAccessOfRules (groupRes MetricsACLConfig) ["devcluster1"]
          [selfReview; viewRedMetrics]).
Proof.
  split; [reflexivity|].
  apply (GetResourceAccess_uses_partial_results
           (authorityWith [selfReview; viewRedMetrics] "webhook timed out")
           (groupRes MetricsACLConfig) ["devcluster1"] ""
           {| Spec := Spec (rulesReviewRequest "");
              Status := {| ResourceRules := [selfReview; viewRedMetrics]; Incomplete := false;
                           EvaluationError := "webhook timed out" |} |}).
  reflexivity.
Defined.

(** X8. The request sent to the authority never carries an empty
    namespace: the empty one is replaced by ["$ Invalid $"], any other is
    sent as it is.  [GetMetricsAccess] always asks with the replaced one, so
    its runs depend on a client only through the answer to that request. *)
Theorem GetMetricsAccess_asks_the_invalid_namespace :
  (∀ namespace, Namespace (Spec (rulesReviewRequest namespace)) ≠ "") ∧
  (∀ namespace, namespace ≠ "" →
     Namespace (Spec (rulesReviewRequest namespace)) = namespace) ∧
  Namespace (Spec (rulesReviewRequest "")) = "$ Invalid $" ∧
  (∀ (H : kubernetes.ClientSet) r r' userToken clusters c c' out,
     getKubeClientForUser (H := H) r userToken = Ok (Some c) →
     getKubeClientForUser (H := H) r' userToken = Ok (Some c') →
     kubernetes.SelfSubjectRulesReviews_Create c (rulesReviewRequest "$ Invalid $")
     = kubernetes.SelfSubjectRulesReviews_Create c' (rulesReviewRequest "$ Invalid $") →
     GetMetricsAccess (H := H) r userToken clusters out ↔
     GetMetricsAccess (H := H) r' userToken clusters out).
Proof.
  split_and!.
  - intros ns. unfold rulesReviewRequest. simpl.
    destruct (String.eqb_spec ns ""); [discriminate | done].
  - intros ns Hns. unfold rulesReviewRequest. simpl.
    by destruct (String.eqb_spec ns "").
  - reflexivity.
  - intros H r r' tok clusters c c' out Hc Hc' Hsame.
    unfold GetMetricsAccess. rewrite Hc, Hc', !GetResourceAccess_call.
    change (rulesReviewRequest "") with (rulesReviewRequest "$ Invalid $").
    by rewrite Hsame.
Qed.

Lemma GetMetricsAccess_asks_the_invalid_namespace_witness :
  "testns" ≠ "" ∧ Namespace (Spec (rulesReviewRequest "testns")) = "testns".
Proof.
  split; [discriminate|].
  apply (proj1 (proj2 GetMetricsAccess_asks_the_invalid_namespace)). discriminate.
Defined.

(** ** The result of [GetResourceAccess], entry by entry *)

Lemma rulesFor_cons (gr : schema.GroupResource) (resourcenames : list string)
    (name : string) (rule : ResourceRule) (rules : list ResourceRule) :
  rulesFor gr resourcenames name (rule :: rules) =
    if decide (ruleMatches gr rule ∧ ruleCovers resourcenames rule name)
    then rule :: rulesFor gr resourcenames name rules
    else rulesFor gr resourcenames name rules.
Proof. unfold rulesFor. by rewrite filter_cons. Qed.

Lemma elem_of_rulesFor (gr : schema.GroupResource) (resourcenames : list string)
    (name : string) (rules : list ResourceRule) (rule : ResourceRule) :
  rule ∈ rulesFor gr resourcenames name rules ↔
  rule ∈ rules ∧ ruleMatches gr rule ∧ ruleCovers resourcenames rule name.
Proof. unfold rulesFor. rewrite list_elem_of_filter. naive_solver. Qed.

Lemma foldl_applyRule_lookup (gr : schema.GroupResource) (resourcenames : list string)
    (rules : list ResourceRule) (results : gmap string (list string)) (k : string) :
  foldl (applyRule gr resourcenames) results rules !! k =
    match rulesFor gr resourcenames k rules with
    | [] => results !! k
    | rs => Some (foldl addUniqueItems (default [] (results !! k)) (Verbs <$> rs))
    end.
Proof.
  revert results. induction rules as [|rule rules IH]; intros results; [done|].
  simpl. rewrite IH, rulesFor_cons, applyRule_lookup.
  case_decide as Hd; [|done].
  by destruct (rulesFor gr resourcenames k rules).
Qed.

Lemma resourceAccessOfRules_lookup (gr : schema.GroupResource) (resourcenames : list string)
    (rules : list ResourceRule) (k : string) :
  resourceAccessOfRules gr resourcenames rules !! k =
    match rulesFor gr resourcenames k rules with
    | [] => if decide (k ∈ resourcenames) then Some [] else None
    | rs => Some (mergeAll (Verbs <$> rs))
    end.
Proof.
  unfold resourceAccessOfRules. rewrite addMissingEntries_lookup, foldl_applyRule_lookup.
  rewrite lookup_empty. by destruct (rulesFor gr resourcenames k rules).
Qed.

Lemma ruleCovers_names_iff (resourcenames resourcenames' : list string)
    (rule : ResourceRule) (name : string) :
  (∀ x, x ∈ resourcenames ↔ x ∈ resourcenames') →
  ruleCovers resourcenames rule name ↔ ruleCovers resourcenames' rule name.
Proof.
  intros Hset. unfold ruleCovers.
  destruct resourcenames as [|n ns], resourcenames' as [|n' ns'].
  - done.
  - exfalso. eapply (not_elem_of_nil n'). apply Hset. left.
  - exfalso. eapply (not_elem_of_nil n). apply Hset. left.
  - destruct (ResourceNames rule); [apply Hset | by rewrite (Hset name)].
Qed.

(** X9. The entry of a name in the result of [GetResourceAccess], order
    included: the verbs of the matching rules that cover the name, each verb
    at its first appearance, rule after rule in the order of the rules.  A
    name no such rule covers has the empty entry when it is requested and
    no entry otherwise. *)
Theorem GetResourceAccess_entry
    (kclient : option kubernetes.Interface) (gr : schema.GroupResource)
    (resourcenames : list string) (namespace : string)
    (log : list string) (results : gmap string (list string)) :
  GetResourceAccess kclient gr resourcenames namespace = (log, Ok results) →
  ∃ rules,
    makeSubjectRulesReviewForUser kclient namespace = (log, Ok rules) ∧
    ∀ name,
      results !! name =
        match rulesFor gr resourcenames name rules with
        | [] => if decide (name ∈ resourcenames) then Some [] else None
        | rs => Some (mergeAll (Verbs <$> rs))
        end.
Proof.
  intros (rules & Hrules & ->)%GetResourceAccess_Ok. exists rules.
  split; [done|]. intros name. apply resourceAccessOfRules_lookup.
Qed.

Lemma GetResourceAccess_entry_witness :
  GetResourceAccess (Some (authorityWith [viewRedMetrics; selfReview; viewBlueMetrics] ""))
    (groupRes MetricsACLConfig) [] ""
  = ([], Ok (resourceAccessOfRules (groupRes MetricsACLConfig) []
               [viewRedMetrics; selfReview; viewBlueMetrics])) ∧
  resourceAccessOfRules (groupRes MetricsACLConfig) []
    [viewRedMetrics; selfReview; viewBlueMetrics] !! "devcluster2"
  = Some ["metrics/nsred1"; "metrics/nsred2";
          "metrics/nsblue1"; "metrics/nsblue2"; "metrics/nsblue3"].
Proof.
  split; [reflexivity|].
  destruct (GetResourceAccess_entry
              (Some (authorityWith [viewRedMetrics; selfReview; viewBlueMetrics] ""))
              (groupRes MetricsACLConfig) [] "" [] _ eq_refl) as (rules & Hrules & Hentry).
  injection Hrules as <-. rewrite Hentry. vm_compute. reflexivity.
Defined.

(** X10. Rules that do not match the target are invisible: the map built
    from a list of rules is the map built from its matching rules alone. *)
Theorem resourceAccessOfRules_matching_rules_only
    (gr : schema.GroupResource) (resourcenames : list string) (rules : list ResourceRule) :
  resourceAccessOfRules gr resourcenames rules =
  resourceAccessOfRules gr resourcenames (filter (ruleMatches gr) rules).
Proof.
  apply map_eq. intros k. rewrite !resourceAccessOfRules_lookup.
  assert (rulesFor gr resourcenames k (filter (ruleMatches gr) rules)
          = rulesFor gr resourcenames k rules) as ->; [|done].
  unfold rulesFor. rewrite list_filter_filter. apply list_filter_iff. naive_solver.
Qed.

Lemma GetResourceAccess_names_iff
    (kclient : option kubernetes.Interface) (gr : schema.GroupResource)
    (resourcenames resourcenames' : list string) (namespace : string) :
  (∀ name, name ∈ resourcenames ↔ name ∈ resourcenames') →
  GetResourceAccess kclient gr resourcenames namespace =
  GetResourceAccess kclient gr resourcenames' namespace.
Proof.
  intros Hset. unfold GetResourceAccess.
  assert (∀ rules, resourceAccessOfRules gr resourcenames rules
                   = resourceAccessOfRules gr resourcenames' rules) as Heq.
  { intros rules. apply map_eq. intros k. rewrite !resourceAccessOfRules_lookup.
    assert (rulesFor gr resourcenames k rules = rulesFor gr resourcenames' k rules) as ->.
    { unfold rulesFor. apply list_filter_iff. intros rule.
      by rewrite (ruleCovers_names_iff _ _ rule k Hset). }
    destruct (rulesFor gr resourcenames' k rules); [|done].
    apply decide_ext, Hset. }
  destruct (makeSubjectRulesReviewForUser kclient namespace) as [l [rules|e|]]; simpl;
    by rewrite ?Heq.
Qed.

(** X11. The requested names count as a set: requesting a name twice, or
    the names in another order, makes [GetResourceAccess] return the same. *)
Theorem GetResourceAccess_names_as_a_set
    (kclient : option kubernetes.Interface) (gr : schema.GroupResource)
    (resourcenames resourcenames' : list string) (namespace : string) :
  (∀ name, name ∈ resourcenames ↔ name ∈ resourcenames') →
  (GetResourceAccess kclient gr resourcenames namespace).2 =
  (GetResourceAccess kclient gr resourcenames' namespace).2.
Proof. intros Hset. by rewrite (GetResourceAccess_names_iff _ _ _ _ _ Hset). Qed.

Lemma GetResourceAccess_names_as_a_set_witness :
  (∀ name, name ∈ ["devcluster1"; "blah"; "devcluster1"] ↔ name ∈ ["blah"; "devcluster1"]) ∧
  (GetResourceAccess (Some (authorityWith [selfReview; viewRedMetrics] ""))
     (groupRes MetricsACLConfig) ["devcluster1"; "blah"; "devcluster1"] "").2
  = (GetResourceAccess (Some (authorityWith [selfReview; viewRedMetrics] ""))
       (groupRes MetricsACLConfig) ["blah"; "devcluster1"] "").2.
Proof.
  assert (∀ name, name ∈ ["devcluster1"; "blah"; "devcluster1"]
                  ↔ name ∈ ["blah"; "devcluster1"]) as Hset.
  { intros name. rewrite !elem_of_cons, !elem_of_nil. naive_solver. }
  split; [exact Hset|].
  exact (GetResourceAccess_names_as_a_set _ _ _ _ "" Hset).
Defined.

(** X12. Access only grows with the rules: when every rule of one list is
    in another, each name of the result for the first list is a name of the
    result for the second, with at least the same verbs. *)
Theorem resourceAccessOfRules_monotone
    (gr : schema.GroupResource) (resourcenames : list string)
    (rules rules' : list ResourceRule) (name : string) :
  (∀ rule, rule ∈ rules → rule ∈ rules') →
  (is_Some (resourceAccessOfRules gr resourcenames rules !! name) →
   is_Some (resourceAccessOfRules gr resourcenames rules' !! name)) ∧
  (∀ v, v ∈ default [] (resourceAccessOfRules gr resourcenames rules !! name) →
        v ∈ default [] (resourceAccessOfRules gr resourcenames rules' !! name)).
Proof.
  intros Hsub. split.
  - rewrite !resourceAccessOfRules_is_Some. unfold someRuleCovers.
    intros [(rule & Hr & ?)|?]; [left; exists rule; split; [by apply Hsub | done] | by right].
  - intros v. rewrite !resourceAccessOfRules_elem_of.
    intros (rule & Hr & ?). exists rule. split; [by apply Hsub | done].
Qed.

Lemma resourceAccessOfRules_monotone_witness :
  (∀ rule, rule ∈ [viewRedMetrics] → rule ∈ [viewBlueMetrics; viewRedMetrics]) ∧
  (is_Some (resourceAccessOfRules (groupRes MetricsACLConfig) [] [viewRedMetrics]
              !! "devcluster1") →
   is_Some (resourceAccessOfRules (groupRes MetricsACLConfig) []
              [viewBlueMetrics; viewRedMetrics] !! "devcluster1")).
Proof.
  assert (∀ rule, rule ∈ [viewRedMetrics] → rule ∈ [viewBlueMetrics; viewRedMetrics]) as Hsub
    by (intros rule Hr; by right).
  split; [exact Hsub|].
  exact (proj1 (resourceAccessOfRules_monotone (groupRes MetricsACLConfig) []
                  [viewRedMetrics] [viewBlueMetrics; viewRedMetrics] "devcluster1" Hsub)).
Defined.

(** X13. Asking about a name gives what asking about nothing gives for that
    name together with what it gives for the sentinel ["*"]: as long as no
    matching rule lists ["*"] among its names, the verbs of a requested name
    are those of its own entry and of the ["*"] entry of the unrestricted
    query. *)
Theorem requested_name_gets_the_wildcard_verbs
    (gr : schema.GroupResource) (resourcenames : list string)
    (rules : list ResourceRule) (name v : string) :
  name ∈ resourcenames →
  (∀ rule, rule ∈ rules → ruleMatches gr rule → "*" ∉ ResourceNames rule) →
  v ∈ default [] (resourceAccessOfRules gr resourcenames rules !! name) ↔
  v ∈ default [] (resourceAccessOfRules gr [] rules !! name) ∨
  v ∈ default [] (resourceAccessOfRules gr [] rules !! "*").
Proof.
  intros Hname Hstar. rewrite !resourceAccessOfRules_elem_of. unfold ruleCovers.
  destruct resourcenames as [|n ns]; [by apply elem_of_nil in Hname|].
  split.
  - intros (rule & Hr & Hm & Hc & Hv).
    destruct (ResourceNames rule) as [|rn rns] eqn:Hrn.
    + right. exists rule. by rewrite Hrn.
    + left. exists rule. rewrite Hrn. naive_solver.
  - intros [(rule & Hr & Hm & Hc & Hv)|(rule & Hr & Hm & Hc & Hv)]; exists rule.
    + destruct (ResourceNames rule) as [|rn rns] eqn:Hrn; [by subst|done].
    + destruct (ResourceNames rule) as [|rn rns] eqn:Hrn; [done|].
      exfalso. apply (Hstar rule Hr Hm). by rewrite Hrn.
Qed.

Lemma requested_name_gets_the_wildcard_verbs_witness :
  "devcluster1" ∈ ["devcluster1"] ∧
  (∀ rule, rule ∈ [viewRedMetrics; viewSystemMetrics] →
           ruleMatches (groupRes MetricsACLConfig) rule → "*" ∉ ResourceNames rule) ∧
  ("metrics/kube-system"
     ∈ default [] (resourceAccessOfRules (groupRes MetricsACLConfig) ["devcluster1"]
                     [viewRedMetrics; viewSystemMetrics] !! "devcluster1") ↔
   "metrics/kube-system"
     ∈ default [] (resourceAccessOfRules (groupRes MetricsACLConfig) []
                     [viewRedMetrics; viewSystemMetrics] !! "devcluster1") ∨
   "metrics/kube-system"
     ∈ default [] (resourceAccessOfRules (groupRes MetricsACLConfig) []
                     [viewRedMetrics; viewSystemMetrics] !! "*")).
Proof.
  assert (∀ rule, rule ∈ [viewRedMetrics; viewSystemMetrics] →
            ruleMatches (groupRes MetricsACLConfig) rule → "*" ∉ ResourceNames rule) as Hstar.
  { intros rule [->|[->|[]%elem_of_nil]%elem_of_cons]%elem_of_cons _; simpl.
    - rewrite !not_elem_of_cons. split_and!; [discriminate..|apply not_elem_of_nil].
    - apply not_elem_of_nil. }
  split; [left|]. split; [exact Hstar|].
  apply (requested_name_gets_the_wildcard_verbs (groupRes MetricsACLConfig) ["devcluster1"]
           [viewRedMetrics; viewSystemMetrics] "devcluster1" "metrics/kube-system");
    [left | exact Hstar].
Defined.


(** ** The result of [GetMetricsAccess], from the rules *)

Lemma addCluster_clusters_iff (clusters clusters' : list string)
    (results : gmap string (list string)) (clustername : string) (ns : list string) :
  (∀ x, x ∈ clusters ↔ x ∈ clusters') →
  addCluster clusters results clustername ns = addCluster clusters' results clustername ns.
Proof.
  intros Hset. unfold addCluster.
  assert (slices.Contains clusters clustername = slices.Contains clusters' clustername) as ->;
    [|done].
  destruct (slices.Contains clusters' clustername) eqn:Hc.
  - apply Contains_elem_of, Hset. by apply Contains_elem_of.
  - apply Contains_false. rewrite Hset. by apply Contains_false.
Qed.

Lemma metricsLoop_clusters_iff (clusters clusters' : list string)
    (results : gmap string (list string)) (visited : list (string * list string))
    (results' : gmap string (list string)) :
  (∀ x, x ∈ clusters ↔ x ∈ clusters') →
  metricsLoop clusters results visited results' →
  metricsLoop clusters' results visited results'.
Proof.
  intros Hset. induction 1 as [|results cn acls rest ns results' Hns Hloop IH].
  - constructor.
  - econstructor; [done|]. by rewrite <-(addCluster_clusters_iff clusters clusters').
Qed.

Section metrics_from_rules.
Context `{kubernetes.ClientSet}.

(** X14. When no cluster is requested, a successful [GetMetricsAccess]
    reports no cluster with an empty list: every entry holds at least one
    namespace. *)
Theorem GetMetricsAccess_all_clusters_no_empty_entry
    (r : AccessReviewer) (userToken : string) (log : list string)
    (metricsAccessResults : gmap string (list string)) (c : string) (nss : list string) :
  GetMetricsAccess r userToken [] (log, Ok metricsAccessResults) →
  metricsAccessResults !! c = Some nss →
  nss ≠ [].
Proof.
  intros (kc & acls & _ & _ & Hd)%GetMetricsAccess_Ok Hc.
  specialize (Hd c). destruct (acls !! c) as [verbs|]; [|congruence].
  case_decide as Hinc; [|congruence].
  destruct Hd as (ns & Hns & Hlook). assert (ns = nss) as -> by congruence.
  destruct Hinc as [Hne|[]%elem_of_nil]. intros Hnil. apply Hne.
  by apply (nsWithMetricsAccessOf_nil _ _ Hns).
Qed.

(** X15. End to end, a successful [GetMetricsAccess] reports for a cluster
    exactly the namespaces granted by a verb of a rule that matches the
    managed clusters resource and covers the cluster: every namespace of an
    entry is granted so, every namespace granted so is in the entry of its
    cluster, and a cluster has an entry exactly when a namespace is granted
    on it or it is requested. *)
Theorem GetMetricsAccess_namespaces_from_rules
    (r : AccessReviewer) (userToken : string) (clusters : list string)
    (log : list string) (metricsAccessResults : gmap string (list string)) :
  GetMetricsAccess r userToken clusters (log, Ok metricsAccessResults) →
  ∃ userKClient rules,
    getKubeClientForUser r userToken = Ok userKClient ∧
    makeSubjectRulesReviewForUser userKClient "" = (log, Ok rules) ∧
    (∀ c nss, metricsAccessResults !! c = Some nss →
       ∀ ns, ns ∈ nss ↔
             ∃ rule acl, rule ∈ rules ∧ ruleMatches (groupRes MetricsACLConfig) rule ∧
                         ruleCovers clusters rule c ∧ acl ∈ Verbs rule ∧ verbGrants acl ns) ∧
    (∀ c ns rule acl,
       rule ∈ rules → ruleMatches (groupRes MetricsACLConfig) rule →
       ruleCovers clusters rule c → acl ∈ Verbs rule → verbGrants acl ns →
       ∃ nss, metricsAccessResults !! c = Some nss ∧ ns ∈ nss) ∧
    (∀ c, is_Some (metricsAccessResults !! c) ↔
          (∃ ns rule acl, rule ∈ rules ∧ ruleMatches (groupRes MetricsACLConfig) rule ∧
                          ruleCovers clusters rule c ∧ acl ∈ Verbs rule ∧ verbGrants acl ns) ∨
          c ∈ clusters).
Proof.
  intros (kc & acls & Hkc & Hacls & Hd)%GetMetricsAccess_Ok.
  apply GetResourceAccess_Ok in Hacls as (rules & Hrules & ->).
  exists kc, rules. split_and!; [done..| | |].
  - intros c nss Hc ns.
    destruct (decodesTo_lookup _ _ _ _ _ Hd Hc) as [_ Hns].
    rewrite (nsWithMetricsAccessOf_elem_of _ _ ns Hns). split.
    + intros (acl & (rule & ? & ? & ? & ?)%resourceAccessOfRules_elem_of & ?).
      exists rule, acl. done.
    + intros (rule & acl & ? & ? & ? & ? & ?). exists acl. split; [|done].
      apply resourceAccessOfRules_elem_of. exists rule. done.
  - intros c ns rule acl Hr Hm Hcov Hacl Hg.
    assert (acl ∈ default [] (resourceAccessOfRules (groupRes MetricsACLConfig)
                                clusters rules !! c)) as Hin
      by (apply resourceAccessOfRules_elem_of; exists rule; done).
    specialize (Hd c).
    destruct (resourceAccessOfRules _ clusters rules !! c) as [verbs|];
      [|by apply elem_of_nil in Hin].
    simpl in Hin. rewrite decide_True in Hd.
    + destruct Hd as (nss & Hns & Hlook). exists nss. split; [done|].
      apply (nsWithMetricsAccessOf_elem_of _ _ ns Hns). eauto.
    + left. apply metricsAccessMapOf_nonempty. eauto.
  - intros c.
    assert (c ∈ clusters →
            is_Some (resourceAccessOfRules (groupRes MetricsACLConfig) clusters rules !! c))
      as Hreq by (intros Hc; apply resourceAccessOfRules_is_Some; by right).
    rewrite (decodesTo_is_Some _ _ _ c Hd Hreq), metricsAccessMapOf_nonempty.
    split.
    + intros [(acl & ns & (rule & ? & ? & ? & ?)%resourceAccessOfRules_elem_of & Hg)|?];
        [left; exists ns, rule, acl; done | by right].
    + intros [(ns & rule & acl & ? & ? & ? & ? & ?)|?]; [left | by right].
      exists acl, ns. split; [|done].
      apply resourceAccessOfRules_elem_of. exists rule. done.
Qed.

(** X16. The requested clusters count as a set: naming a cluster twice, or
    the clusters in another order, leaves what [GetMetricsAccess] can
    return as it is. *)
Theorem GetMetricsAccess_clusters_as_a_set
    (r : AccessReviewer) (userToken : string) (clusters clusters' : list string)
    (out : logged (gmap string (list string))) :
  (∀ c, c ∈ clusters ↔ c ∈ clusters') →
  GetMetricsAccess r userToken clusters out →
  ∃ out', GetMetricsAccess r userToken clusters' out' ∧ out'.2 = out.2.
Proof.
  intros Hset Hout. exists out. split; [|done]. revert Hout.
  unfold GetMetricsAccess.
  destruct (getKubeClientForUser r userToken) as [kc|e|]; [|done..].
  rewrite (GetResourceAccess_names_iff kc _ clusters clusters' "" Hset).
  destruct (GetResourceAccess kc _ clusters' "") as [l [acls|e|]]; [|done..].
  intros (visited & res & Hv & Hloop & ->). exists visited, res.
  split_and!; [done| |done]. by apply (metricsLoop_clusters_iff clusters clusters').
Qed.

(** X20. Metrics access only grows with the rules: when every rule the
    authority lists for one caller is listed for another, each cluster
    reported for the first is reported for the second, with at least the
    same namespaces. *)
Theorem GetMetricsAccess_monotone
    (r r' : AccessReviewer) (userToken userToken' : string) (clusters : list string)
    (userKClient userKClient' : option kubernetes.Interface)
    (log log' : list string) (rules rules' : list ResourceRule)
    (results results' : gmap string (list string)) (c : string) (nss : list string) :
  getKubeClientForUser r userToken = Ok userKClient →
  getKubeClientForUser r' userToken' = Ok userKClient' →
  makeSubjectRulesReviewForUser userKClient "" = (log, Ok rules) →
  makeSubjectRulesReviewForUser userKClient' "" = (log', Ok rules') →
  (∀ rule, rule ∈ rules → rule ∈ rules') →
  GetMetricsAccess r userToken clusters (log, Ok results) →
  GetMetricsAccess r' userToken' clusters (log', Ok results') →
  results !! c = Some nss →
  ∃ nss', results' !! c = Some nss' ∧ ∀ ns, ns ∈ nss → ns ∈ nss'.
Proof.
  intros Hkc Hkc' Hrules Hrules' Hsub
    (kc & acls & Hkc1 & Hacls & Hd)%GetMetricsAccess_Ok
    (kc' & acls' & Hkc1' & Hacls' & Hd')%GetMetricsAccess_Ok Hc.
  assert (kc = userKClient) as -> by congruence.
  assert (kc' = userKClient') as -> by congruence.
  apply GetResourceAccess_Ok in Hacls as (rs & Hrs & ->).
  apply GetResourceAccess_Ok in Hacls' as (rs' & Hrs' & ->).
  assert (rs = rules) as -> by congruence.
  assert (rs' = rules') as -> by congruence.
  set (gr := groupRes MetricsACLConfig) in *.
  assert (∀ v, v ∈ default [] (resourceAccessOfRules gr clusters rules !! c) →
               v ∈ default [] (resourceAccessOfRules gr clusters rules' !! c)) as Hverbs.
  { intros v. rewrite !resourceAccessOfRules_elem_of.
    intros (rule & Hr & ?). exists rule. split; [by apply Hsub | done]. }
  assert (is_Some (resourceAccessOfRules gr clusters rules !! c) →
          is_Some (resourceAccessOfRules gr clusters rules' !! c)) as Hkeys.
  { rewrite !resourceAccessOfRules_is_Some. unfold someRuleCovers.
    intros [(rule & Hr & ?)|?]; [left; exists rule; split; [by apply Hsub | done] | by right]. }
  destruct (decodesTo_lookup _ _ _ _ _ Hd Hc) as [Hsome Hns].
  specialize (Hd c). specialize (Hd' c).
  destruct Hsome as [verbs Hv]. destruct (Hkeys (mk_is_Some _ _ Hv)) as [verbs' Hv'].
  rewrite Hv in Hd, Hns, Hverbs. rewrite Hv' in Hd', Hverbs. simpl in Hns, Hverbs.
  assert (clusterIncluded clusters c verbs') as Hinc'.
  { destruct (decide (clusterIncluded clusters c verbs)) as [Hinc|Hinc]; [|congruence].
    destruct Hinc as [Hne|?]; [left | by right].
    apply map_choose in Hne as (ns & b & Hb).
    destruct (proj1 (metricsAccessMapOf_is_Some verbs ns) (mk_is_Some _ _ Hb))
      as (acl & Hacl & Hg).
    intros Hempty.
    assert (is_Some (metricsAccessMapOf verbs' !! ns)) as Hs
      by (apply metricsAccessMapOf_is_Some; exists acl; split; [by apply Hverbs | done]).
    rewrite Hempty, lookup_empty in Hs. by apply is_Some_None in Hs. }
  rewrite decide_True in Hd' by done. destruct Hd' as (nss' & Hns' & Hlook').
  exists nss'. split; [done|]. intros ns.
  rewrite (nsWithMetricsAccessOf_elem_of _ _ ns Hns),
          (nsWithMetricsAccessOf_elem_of _ _ ns Hns').
  intros (acl & Hacl & Hg). exists acl. split; [by apply Hverbs | done].
Qed.
End metrics_from_rules.

Lemma GetMetricsAccess_all_clusters_no_empty_entry_witness :
  GetMetricsAccess (H := purpleClientSet)
    (reviewerWith [selfReview; viewSystemMetrics; listClusters]) "" []
    ([], Ok {["*" := ["kube-system"]]}) ∧
  ({["*" := ["kube-system"]]} : gmap string (list string)) !! "*" = Some ["kube-system"] ∧
  ["kube-system"] ≠ [].
Proof.
  assert (GetMetricsAccess (H := purpleClientSet)
            (reviewerWith [selfReview; viewSystemMetrics; listClusters]) "" []
            ([], Ok {["*" := ["kube-system"]]})) as Hrun.
  { pose proof (GetMetricsAccessInOrder_run (H := purpleClientSet) id
                  (reviewerWith [selfReview; viewSystemMetrics; listClusters]) "" []
                  (λ l, reflexivity l)) as Hrun.
    assert (GetMetricsAccessInOrder (H := purpleClientSet) id
              (reviewerWith [selfReview; viewSystemMetrics; listClusters]) "" []
            = ([], Ok {["*" := ["kube-system"]]})) as Heq by (vm_compute; reflexivity).
    by rewrite Heq in Hrun. }
  split; [exact Hrun|]. split; [reflexivity|].
  exact (GetMetricsAccess_all_clusters_no_empty_entry (H := purpleClientSet)
           _ "" [] _ "*" ["kube-system"] Hrun eq_refl).
Defined.

Lemma GetMetricsAccess_namespaces_from_rules_witness :
  GetMetricsAccess (H := purpleClientSet)
    (reviewerWith [selfReview; viewSystemMetrics; listClusters]) "" []
    ([], Ok {["*" := ["kube-system"]]}) ∧
  viewSystemMetrics ∈ [selfReview; viewSystemMetrics; listClusters] ∧
  ruleMatches (groupRes MetricsACLConfig) viewSystemMetrics ∧
  ruleCovers [] viewSystemMetrics "*" ∧
  "metrics/kube-system" ∈ Verbs viewSystemMetrics ∧
  verbGrants "metrics/kube-system" "kube-system" ∧
  ∃ nss, ({["*" := ["kube-system"]]} : gmap string (list string)) !! "*" = Some nss ∧
         "kube-system" ∈ nss.
Proof.
  assert (GetMetricsAccess (H := purpleClientSet)
            (reviewerWith [selfReview; viewSystemMetrics; listClusters]) "" []
            ([], Ok {["*" := ["kube-system"]]})) as Hrun.
  { pose proof (GetMetricsAccessInOrder_run (H := purpleClientSet) id
                  (reviewerWith [selfReview; viewSystemMetrics; listClusters]) "" []
                  (λ l, reflexivity l)) as Hrun.
    assert (GetMetricsAccessInOrder (H := purpleClientSet) id
              (reviewerWith [selfReview; viewSystemMetrics; listClusters]) "" []
            = ([], Ok {["*" := ["kube-system"]]})) as Heq by (vm_compute; reflexivity).
    by rewrite Heq in Hrun. }
  assert (viewSystemMetrics ∈ [selfReview; viewSystemMetrics; listClusters]) as Hin
    by (right; left).
  assert (ruleMatches (groupRes MetricsACLConfig) viewSystemMetrics) as Hm
    by (split; left; left).
  assert (ruleCovers [] viewSystemMetrics "*") as Hcov by reflexivity.
  assert ("metrics/kube-system" ∈ Verbs viewSystemMetrics) as Hacl by left.
  assert (verbGrants "metrics/kube-system" "kube-system") as Hg by (left; reflexivity).
  split_and!; [exact Hrun | exact Hin | exact Hm | exact Hcov | exact Hacl | exact Hg |].
  destruct (GetMetricsAccess_namespaces_from_rules (H := purpleClientSet) _ "" [] [] _ Hrun)
    as (kc & rules & Hkc & Hrules & _ & Hgranted & _).
  injection Hkc as <-.
  assert (([], Ok [selfReview; viewSystemMetrics; listClusters])
          = (([], Ok rules) : logged (list ResourceRule))) as Heq by exact Hrules.
  injection Heq as <-.
  exact (Hgranted "*" "kube-system" viewSystemMetrics "metrics/kube-system"
           Hin Hm Hcov Hacl Hg).
Defined.

Lemma GetMetricsAccess_clusters_as_a_set_witness :
  (∀ c, c ∈ ["blah"; "blah"] ↔ c ∈ ["blah"]) ∧
  GetMetricsAccess (H := purpleClientSet) redReviewer "" ["blah"; "blah"]
    (GetMetricsAccessInOrder (H := purpleClientSet) id redReviewer "" ["blah"; "blah"]) ∧
  ∃ out', GetMetricsAccess (H := purpleClientSet) redReviewer "" ["blah"] out' ∧
          out'.2 = (GetMetricsAccessInOrder (H := purpleClientSet) id
                      redReviewer "" ["blah"; "blah"]).2.
Proof.
  assert (∀ c, c ∈ ["blah"; "blah"] ↔ c ∈ ["blah"]) as Hset.
  { intros c. rewrite !elem_of_cons, !elem_of_nil. naive_solver. }
  assert (GetMetricsAccess (H := purpleClientSet) redReviewer "" ["blah"; "blah"]
            (GetMetricsAccessInOrder (H := purpleClientSet) id
               redReviewer "" ["blah"; "blah"])) as Hrun
    by exact (GetMetricsAccessInOrder_run (H := purpleClientSet) id
                redReviewer "" ["blah"; "blah"] (λ l, reflexivity l)).
  split; [exact Hset|]. split; [exact Hrun|].
  exact (GetMetricsAccess_clusters_as_a_set (H := purpleClientSet)
           redReviewer "" ["blah"; "blah"] ["blah"] _ Hset Hrun).
Defined.

(** ** More on [addUniqueItems] *)

Lemma addUniqueItems_exact (l items : list string) :
  NoDup (l ++ items) → addUniqueItems l items = l ++ items.
Proof.
  unfold addUniqueItems. revert l.
  induction items as [|i items IH]; intros l Hnd; simpl.
  - by rewrite app_nil_r.
  - assert (addUniqueItem l i = l ++ [i]) as ->.
    { unfold addUniqueItem. apply NoDup_app in Hnd as (_ & Hdis & _).
      assert (slices.Contains l i = false) as ->; [|done].
      apply Contains_false. intros Hi. apply (Hdis i Hi). left. }
    rewrite IH; by rewrite <-app_assoc.
Qed.

Lemma addUniqueItems_sublist (l items : list string) :
  addUniqueItems l items `sublist_of` l ++ items.
Proof.
  unfold addUniqueItems. revert l.
  induction items as [|i items IH]; intros l; simpl.
  - by rewrite app_nil_r.
  - etrans; [apply IH|]. unfold addUniqueItem.
    destruct (slices.Contains l i); simpl.
    + apply sublist_app; [done|]. by apply sublist_cons.
    + by rewrite <-app_assoc.
Qed.

(** X17. [addUniqueItems] keeps the order it is given: the result is the
    accumulator followed by some of the items, in their order, never longer
    than the two together; merging nothing changes nothing; and when the
    accumulator and the items hold nothing twice, the result is the
    accumulator followed by all the items. *)
Theorem addUniqueItems_keeps_order :
  (∀ l items, addUniqueItems l items `sublist_of` l ++ items) ∧
  (∀ l items : list string,
     (length l ≤ length (addUniqueItems l items) ≤ length l + length items)%nat) ∧
  (∀ l, addUniqueItems l [] = l) ∧
  (∀ l items, NoDup (l ++ items) → addUniqueItems l items = l ++ items).
Proof.
  split_and!.
  - apply addUniqueItems_sublist.
  - intros l items. split.
    + apply prefix_length, addUniqueItems_prefix.
    + rewrite <-length_app. apply sublist_length, addUniqueItems_sublist.
  - done.
  - apply addUniqueItems_exact.
Qed.

Lemma addUniqueItems_keeps_order_witness :
  NoDup (["get"; "list"] ++ ["watch"; "metrics/ns1"]) ∧
  addUniqueItems ["get"; "list"] ["watch"; "metrics/ns1"]
  = ["get"; "list"] ++ ["watch"; "metrics/ns1"].
Proof.
  assert (NoDup (["get"; "list"] ++ ["watch"; "metrics/ns1"])) as Hnd.
  { simpl. repeat (apply NoDup_cons; split;
      [rewrite ?not_elem_of_cons; split_and?; try discriminate; apply not_elem_of_nil|]).
    apply NoDup_nil_2. }
  split; [exact Hnd|].
  destruct addUniqueItems_keeps_order as (_ & _ & _ & Hexact). exact (Hexact _ _ Hnd).
Defined.

(** ** The comparison of the tests *)

Lemma clusterAsExpected_true (gotResults : gmap string (list string))
    (expCluster : string) (expNamespaces : list string) :
  clusterAsExpected gotResults (expCluster, expNamespaces) = true ↔
  ∃ gotNamespaces, gotResults !! expCluster = Some gotNamespaces ∧
                   ∀ ns, ns ∈ expNamespaces → ns ∈ gotNamespaces.
Proof.
  unfold clusterAsExpected. simpl.
  destruct (gotResults !! expCluster) as [g|]; [|split; [done | by intros (? & [=] & _)]].
  rewrite forallb_forall. split.
  - intros Hall. exists g. split; [done|]. intros ns Hns.
    apply Contains_elem_of, Hall. by apply list_elem_of_In.
  - intros (g' & [= <-] & Hall) ns Hns. apply Contains_elem_of, Hall.
    by apply list_elem_of_In.
Qed.

Lemma compareVisited_true (visited : list (string * list string))
    (gotResults : gmap string (list string)) :
  compareVisited visited gotResults = true ↔
  ∀ expected, expected ∈ visited → clusterAsExpected gotResults expected = true.
Proof.
  induction visited as [|e rest IH]; simpl.
  - split; [by intros _ ? ?%elem_of_nil | done].
  - destruct (clusterAsExpected gotResults e) eqn:He.
    + rewrite IH. split.
      * intros Hall x [->|?]%elem_of_cons; [done | by apply Hall].
      * intros Hall x Hx. apply Hall. by right.
    + split; [done|]. intros Hall. rewrite <-He. apply Hall. left.
Qed.

Lemma compareMetricsAccessResultsIn_true (visited : list (string * list string))
    (expectedResults gotResults : gmap string (list string)) :
  rangeOver expectedResults visited →
  compareMetricsAccessResultsIn visited expectedResults gotResults = true ↔
  size expectedResults = size gotResults ∧
  ∀ c expNamespaces, expectedResults !! c = Some expNamespaces →
    ∃ gotNamespaces, gotResults !! c = Some gotNamespaces ∧
                     ∀ ns, ns ∈ expNamespaces → ns ∈ gotNamespaces.
Proof.
  intros Hv. unfold rangeOver in Hv. unfold compareMetricsAccessResultsIn.
  destruct (Nat.eqb_spec (size expectedResults) (size gotResults)) as [Hsize|Hsize]; simpl.
  - rewrite compareVisited_true. split.
    + intros Hall. split; [done|]. intros c e Hc.
      apply clusterAsExpected_true, Hall. rewrite Hv. by apply elem_of_map_to_list.
    + intros [_ Hall] [c e] Hce. apply clusterAsExpected_true, Hall.
      rewrite Hv in Hce. by apply elem_of_map_to_list in Hce.
  - split; [done | by intros [? _]].
Qed.

Lemma compareMetricsAccessResultsIn_rangeOver (visited : list (string * list string))
    (expectedResults gotResults : gmap string (list string)) :
  rangeOver expectedResults visited →
  compareMetricsAccessResultsIn visited expectedResults gotResults =
  compareMetricsAccessResults expectedResults gotResults.
Proof.
  intros Hv. apply eq_true_iff_eq. unfold compareMetricsAccessResults.
  rewrite (compareMetricsAccessResultsIn_true visited) by done.
  rewrite (compareMetricsAccessResultsIn_true (map_to_list expectedResults));
    [done | by unfold rangeOver].
Qed.

Lemma sameAccess_dom (m1 m2 : gmap string (list string)) :
  sameAccess m1 m2 → dom m1 = dom m2.
Proof.
  intros Hsame. apply set_eq. intros c. rewrite !elem_of_dom. specialize (Hsame c).
  destruct (m1 !! c), (m2 !! c); try done; split; intros Hs; eauto;
    by apply is_Some_None in Hs.
Qed.

(** X18. What the comparison of the tests checks, whatever order its range
    over the expected results takes: both maps have the same number of
    clusters, and every expected cluster is in the results received with at
    least the expected namespaces.  So the two maps have the same clusters;
    the order of the namespaces, and namespaces received beyond the
    expected ones, are not looked at. *)
Theorem compareMetricsAccessResults_checks
    (expectedResults gotResults : gmap string (list string)) :
  (∀ visited, rangeOver expectedResults visited →
     compareMetricsAccessResultsIn visited expectedResults gotResults
     = compareMetricsAccessResults expectedResults gotResults) ∧
  (compareMetricsAccessResults expectedResults gotResults = true ↔
   size expectedResults = size gotResults ∧
   ∀ c expNamespaces, expectedResults !! c = Some expNamespaces →
     ∃ gotNamespaces, gotResults !! c = Some gotNamespaces ∧
                      ∀ ns, ns ∈ expNamespaces → ns ∈ gotNamespaces) ∧
  (compareMetricsAccessResults expectedResults gotResults = true →
   dom expectedResults = dom gotResults).
Proof.
  assert (compareMetricsAccessResults expectedResults gotResults = true ↔
          size expectedResults = size gotResults ∧
          ∀ c expNamespaces, expectedResults !! c = Some expNamespaces →
            ∃ gotNamespaces, gotResults !! c = Some gotNamespaces ∧
                             ∀ ns, ns ∈ expNamespaces → ns ∈ gotNamespaces) as Hspec.
  { unfold compareMetricsAccessResults. apply compareMetricsAccessResultsIn_true.
    by unfold rangeOver. }
  split_and!; [intros visited; apply compareMetricsAccessResultsIn_rangeOver | exact Hspec |].
  intros [Hsize Hall]%Hspec. apply set_subseteq_size_eq.
  - intros c [e He]%elem_of_dom. destruct (Hall c e He) as (g & Hg & _).
    apply elem_of_dom. eauto.
  - rewrite !size_dom. lia.
Qed.

Lemma compareMetricsAccessResults_checks_witness :
  rangeOver ({["devcluster1" := ["nsred1"; "nsred2"]; "devcluster2" := ["nsred1"; "nsred2"]]}
               : gmap string (list string))
    [("devcluster2", ["nsred1"; "nsred2"]); ("devcluster1", ["nsred1"; "nsred2"])] ∧
  compareMetricsAccessResultsIn
    [("devcluster2", ["nsred1"; "nsred2"]); ("devcluster1", ["nsred1"; "nsred2"])]
    {["devcluster1" := ["nsred1"; "nsred2"]; "devcluster2" := ["nsred1"; "nsred2"]]}
    {["devcluster1" := ["nsred2"; "nsred1"]; "devcluster2" := ["nsred1"; "nsred2"]]}
  = compareMetricsAccessResults
      {["devcluster1" := ["nsred1"; "nsred2"]; "devcluster2" := ["nsred1"; "nsred2"]]}
      {["devcluster1" := ["nsred2"; "nsred1"]; "devcluster2" := ["nsred1"; "nsred2"]]}.
Proof.
  assert (rangeOver
            ({["devcluster1" := ["nsred1"; "nsred2"]; "devcluster2" := ["nsred1"; "nsred2"]]}
               : gmap string (list string))
            [("devcluster2", ["nsred1"; "nsred2"]); ("devcluster1", ["nsred1"; "nsred2"])])
    as Hv.
  { unfold rangeOver.
    assert (map_to_list
              ({["devcluster1" := ["nsred1"; "nsred2"];
                 "devcluster2" := ["nsred1"; "nsred2"]]} : gmap string (list string))
            = [("devcluster1", ["nsred1"; "nsred2"]); ("devcluster2", ["nsred1"; "nsred2"])])
      as -> by (vm_compute; reflexivity).
    apply perm_swap. }
  split; [exact Hv|].
  exact (proj1 (compareMetricsAccessResults_checks _ _) _ Hv).
Defined.

(** X19. The comparison of the tests does not see the order of the
    namespaces: two results with the same clusters and, for each, the same
    namespaces get the same verdict.  So the verdict on a result of
    [GetMetricsAccess] is the same on every run of the call. *)
Theorem compareMetricsAccessResults_order_blind
    (H : kubernetes.ClientSet)
    (expectedResults : gmap string (list string)) :
  (∀ gotResults gotResults',
     sameAccess gotResults gotResults' →
     compareMetricsAccessResults expectedResults gotResults
     = compareMetricsAccessResults expectedResults gotResults') ∧
  (∀ r userToken clusters log log' results results',
     GetMetricsAccess (H := H) r userToken clusters (log, Ok results) →
     GetMetricsAccess (H := H) r userToken clusters (log', Ok results') →
     compareMetricsAccessResults expectedResults results
     = compareMetricsAccessResults expectedResults results').
Proof.
  assert (∀ got got', sameAccess got got' →
            compareMetricsAccessResults expectedResults got = true →
            compareMetricsAccessResults expectedResults got' = true) as Hone.
  { intros got got' Hsame. unfold compareMetricsAccessResults.
    rewrite !compareMetricsAccessResultsIn_true by (by unfold rangeOver).
    intros [Hsize Hall]. split.
    - rewrite Hsize, <-!size_dom. by rewrite (sameAccess_dom _ _ Hsame).
    - intros c e He. destruct (Hall c e He) as (g & Hg & Hsub).
      specialize (Hsame c). rewrite Hg in Hsame.
      destruct (got' !! c) as [g'|]; [|done].
      exists g'. split; [done|]. intros ns Hns. rewrite <-Hsame. by apply Hsub. }
  assert (∀ got got', sameAccess got got' → sameAccess got' got) as Hsym.
  { intros got got' Hsame c. specialize (Hsame c).
    destruct (got !! c), (got' !! c); done. }
  assert (∀ got got', sameAccess got got' →
            compareMetricsAccessResults expectedResults got
            = compareMetricsAccessResults expectedResults got') as Hblind.
  { intros got got' Hsame. apply eq_true_iff_eq. split; apply Hone; auto. }
  split; [exact Hblind|].
  intros r tok clusters log log' res res'
    (kc & acls & Hkc & Hacls & Hd)%GetMetricsAccess_Ok
    (kc' & acls' & Hkc' & Hacls' & Hd')%GetMetricsAccess_Ok.
  assert (kc' = kc) as -> by congruence.
  assert (acls' = acls) as -> by congruence.
  apply Hblind. by eapply decodesTo_sameAccess.
Qed.

Lemma compareMetricsAccessResults_order_blind_witness :
  GetMetricsAccess (H := purpleClientSet) redReviewer "" ["devcluster1"]
    (GetMetricsAccessInOrder (H := purpleClientSet) id redReviewer "" ["devcluster1"]) ∧
  GetMetricsAccess (H := purpleClientSet) redReviewer "" ["devcluster1"]
    (GetMetricsAccessInOrder (H := purpleClientSet) reverse redReviewer "" ["devcluster1"]) ∧
  compareMetricsAccessResults {["devcluster1" := ["nsred1"; "nsred2"]]}
    (decodeInOrder id ["devcluster1"]
       (map_to_list (resourceAccessOfRules (groupRes MetricsACLConfig) ["devcluster1"]
                       [selfReview; viewRedMetrics])))
  = compareMetricsAccessResults {["devcluster1" := ["nsred1"; "nsred2"]]}
      (decodeInOrder reverse ["devcluster1"]
         (map_to_list (resourceAccessOfRules (groupRes MetricsACLConfig) ["devcluster1"]
                         [selfReview; viewRedMetrics]))).
Proof.
  pose (ACLs := map_to_list (resourceAccessOfRules (groupRes MetricsACLConfig)
                               ["devcluster1"] [selfReview; viewRedMetrics])).
  assert (GetMetricsAccess (H := purpleClientSet) redReviewer "" ["devcluster1"]
            ([], Ok (decodeInOrder id ["devcluster1"] ACLs))) as Hrun
    by exact (GetMetricsAccessInOrder_run (H := purpleClientSet) id
                redReviewer "" ["devcluster1"] (λ l, reflexivity l)).
  assert (GetMetricsAccess (H := purpleClientSet) redReviewer "" ["devcluster1"]
            ([], Ok (decodeInOrder reverse ["devcluster1"] ACLs))) as Hrun'
    by exact (GetMetricsAccessInOrder_run (H := purpleClientSet) reverse
                redReviewer "" ["devcluster1"] reverse_Permutation).
  split; [exact Hrun|]. split; [exact Hrun'|].
  exact (proj2 (compareMetricsAccessResults_order_blind purpleClientSet
                  {["devcluster1" := ["nsred1"; "nsred2"]]})
           redReviewer "" ["devcluster1"] [] [] _ _ Hrun Hrun').
Defined.

Lemma GetMetricsAccess_monotone_witness :
  (∀ rule, rule ∈ [selfReview; viewRedMetrics] →
           rule ∈ [selfReview; viewBlueMetrics; viewRedMetrics]) ∧
  GetMetricsAccess (H := purpleClientSet) redReviewer "" ["devcluster1"]
    ([], Ok {["devcluster1" := ["nsred1"; "nsred2"]]}) ∧
  GetMetricsAccess (H := purpleClientSet)
    (reviewerWith [selfReview; viewBlueMetrics; viewRedMetrics]) "" ["devcluster1"]
    ([], Ok (decodeInOrder id ["devcluster1"]
               (map_to_list (resourceAccessOfRules (groupRes MetricsACLConfig)
                               ["devcluster1"]
                               [selfReview; viewBlueMetrics; viewRedMetrics])))) ∧
  ∃ nss',
    decodeInOrder id ["devcluster1"]
      (map_to_list (resourceAccessOfRules (groupRes MetricsACLConfig) ["devcluster1"]
                      [selfReview; viewBlueMetrics; viewRedMetrics])) !! "devcluster1"
    = Some nss' ∧
    ∀ ns, ns ∈ ["nsred1"; "nsred2"] → ns ∈ nss'.
Proof.
  assert (∀ rule, rule ∈ [selfReview; viewRedMetrics] →
            rule ∈ [selfReview; viewBlueMetrics; viewRedMetrics]) as Hsub.
  { intros rule. rewrite !elem_of_cons. naive_solver. }
  assert (GetMetricsAccess (H := purpleClientSet) redReviewer "" ["devcluster1"]
            ([], Ok {["devcluster1" := ["nsred1"; "nsred2"]]})) as Hrun.
  { pose proof (GetMetricsAccessInOrder_run (H := purpleClientSet) id
                  redReviewer "" ["devcluster1"] (λ l, reflexivity l)) as Hrun.
    assert (GetMetricsAccessInOrder (H := purpleClientSet) id redReviewer "" ["devcluster1"]
            = ([], Ok {["devcluster1" := ["nsred1"; "nsred2"]]})) as Heq
      by (vm_compute; reflexivity).
    by rewrite Heq in Hrun. }
  assert (GetMetricsAccess (H := purpleClientSet)
            (reviewerWith [selfReview; viewBlueMetrics; viewRedMetrics]) "" ["devcluster1"]
            ([], Ok (decodeInOrder id ["devcluster1"]
                       (map_to_list (resourceAccessOfRules (groupRes MetricsACLConfig)
                                       ["devcluster1"]
                                       [selfReview; viewBlueMetrics; viewRedMetrics])))))
    as Hrun'
    by exact (GetMetricsAccessInOrder_run (H := purpleClientSet) id
                (reviewerWith [selfReview; viewBlueMetrics; viewRedMetrics]) ""
                ["devcluster1"] (λ l, reflexivity l)).
  split; [exact Hsub|]. split; [exact Hrun|]. split; [exact Hrun'|].
  exact (GetMetricsAccess_monotone (H := purpleClientSet)
           redReviewer (reviewerWith [selfReview; viewBlueMetrics; viewRedMetrics])
           "" "" ["devcluster1"] _ _ [] [] _ _ _ _ "devcluster1" ["nsred1"; "nsred2"]
           eq_refl eq_refl eq_refl eq_refl Hsub Hrun Hrun' eq_refl).
Defined.
